(* ===== verification/_CoqProject ===== *)
-Q . S2P
Prelude.v
Signals.v
Counter.v
Registry.v
Controller.v
ControllerRuns.v
Console.v
Stdio.v
System.v
