(* ===== verification/Prelude.v ===== *)
(** * A verification development of ProcessSignals

    ProcessSignals is two small C programs that talk to each other only
    through POSIX signals:

    - [src/Signals/infcounter/src/counter.c] (the counter): two globals
      [volatile sig_atomic_t i] and [sign]; a handler that sets [i = 0] on
      SIGUSR1 and [sign = -sign] on SIGUSR2; a [main] that installs the
      handler for both signals and then loops forever printing [i], doing
      [i += sign] and sleeping one second.
    - [src/Signals/src/handler.c] (the controller): reads a quantity
      [qty] in [0, 5] (re-prompting otherwise), allocates [pids], reads
      [qty] process identifiers, and while [qty > 0] shows the list, reads
      an index and an action and forks a child that sends SIGSTOP, SIGCONT,
      SIGUSR2, SIGUSR1 or SIGKILL to [pids[index-1]]; on a kill it also
      removes the entry by shifting the tail left and [realloc]s the array.

    The controller reaches a counter only through [kill(2)], issued by a
    forked child it never waits for; the kernel marks the signal pending
    in the counter (at most one pending per kind), and the counter runs
    its handler at some later instruction boundary.

    ** Files

    - [Prelude] (this file): C [int] arithmetic ([CInt]: the 32-bit range,
      signed addition and negation returning [None] on overflow, which is
      undefined behaviour in C), the reference list removal [remove_nth]
      and its lemmas, the [invc] and [c_arith] tactics and the hint databases [csem] and [csem_rw].
    - [Signals]: the five signals the programs use, their Linux numbers
      and the interface [SignalTarget] that a process receiving signals
      offers to a sender.
    - [Counter]: counter.c. [Counter.globals] is the pair [i]/[sign];
      [Counter.handler] is [handler]; the main loop is a program counter
      [Counter.pc] ([Start], [Reg1], [Print], [Load], [Store], [Sleep])
      whose steps are the statements of [main]; [Counter.proc] adds the
      kernel's view (status, pending flags, output); [Counter.cstep] is the
      step relation mixing program steps, handler runs and incoming
      signals.
    - [Registry]: the [pids] array of handler.c: its input loop, the
      compaction loop of the kill case and the [realloc] that follows,
      proved equal to [remove_nth]; the class [PidRegistry] (with its laws
      [PidRegistryLaws]) is the abstract contract, an ordered sequence
      with removal, of which the list is the model ([list_registry]) and
      the array with [qty] the implementation ([pid_array_registry]).
    - [Controller]: [main] of handler.c with [scanf] on an explicit input
      list, [printf] as a list of events, and [malloc], [realloc] and
      [fork] as environment oracles; one function per loop, and a
      fuel-bounded run of the whole program returning its exit status,
      or [Undefined] when it indexes out of bounds.
    - [ControllerRuns]: the runs of the interaction loop as the relation
      [ctl_turn] of its turns, and the predicate [typed] that every
      variable of [main] holds an [int].
    - [Console]: the text of both programs: [printf]'s [%d] ([fmt_d]),
      the counter's line of counter.c line 34 ([count_line]), every
      prompt of handler.c and its entries line ([stdout_of]), [perror]
      ([stderr_of]), parsers for the printed lines, and [scanf("%d")] on
      the text of standard input ([scanf_d]).
    - [Stdio]: the [stdout] buffer of the controller, line buffered on
      a terminal and fully buffered to a file ([put]), copied into each
      forked child and flushed by its [exit(1)] ([run]), and the final
      flush at the end of [main] ([stdout_file]).
    - [System]: the two programs together: the controller with its status
      as a process, a [gmap] from pids to processes and the forked
      children's signals in flight, delivered in any order to the
      processes [kill(2)] names (one pid, the sender's group, every
      process, or a group, after the [layout] the processes were started
      with); stated for any process type with the [SignalTarget]
      interface ([System.wstep]) and instantiated with the counter.

    ** What the theorems show

    - Counter: every reachable state keeps [sign] in [{1, -1}] and [i] an
      [int] ([reachable_inv]); only the SIGUSR2 handler changes the
      direction ([sign_changes_only_by_toggle]) and [n] toggles give the
      parity law ([toggle_parity]), which holds along any run that
      interleaves statements of [main], arrivals and deliveries, counted
      on the labels of [lstep] ([toggle_parity_any_interleaving]); alone, the loop prints [i0], [i0 +
      sign], ... ([run_without_signals]) and overflows, which is
      undefined, after [INT_MAX] lines ([overflow_after_INT_MAX_lines]);
      once the handlers are installed only SIGKILL ends the process
      ([terminates_only_by_sigkill]). The reset is not always seen: the
      next printed value after a SIGUSR1 depends on where it lands
      ([reset_next_line]), and a reachable run loses it
      ([reset_lost_reachable]), and before the handlers are installed it
      kills the counter ([reset_next_line] again); two toggles in a row merge
      and cut the sleep short ([toggles_coalesce],
      [post_signal_idempotent]).
    - Registry: the input loop ([read_pids_spec]); the compaction loop and
      [realloc] remove exactly one entry and keep the order
      ([kill_entry_spec]); the array refines the abstract registry
      ([array_remove_refines]).
    - Controller: the quantity loop terminates with a value in [0, 5]
      ([qty_loop_spec]); startup ([startup_spec]) and the case [qty = 0],
      where [malloc(0)] may return NULL ([main_qty_zero]); each branch of
      one iteration: kill ([interact_step_kill]), the other signals
      ([interact_step_signal]), an ignored code
      ([interact_step_ignored]), an index out of bounds
      ([interact_step_bad_index]); every iteration refines the abstract
      registry and keeps [0 <= qty] ([interact_step_refines]); killing the
      first entry [qty] times empties the registry and exits with 0
      ([kill_first_until_empty]); at end of input the last command repeats
      forever ([eof_repeats_last_command]). The scenarios of the spec are
      evaluated on their inputs ([main_scenarios], [eof_after_kill_undefined],
      checked examples rather than properties).
    - ControllerRuns: on [int] input no variable of [main] leaves the
      range of [int] ([main_typed]); the fuel of the interaction loop is
      only a bound ([interact_loop_equiv], a lemma on the model).
    - Console: the counter's output and the controller's list read back
      to exactly what was printed ([counter_text_roundtrip],
      [entries_text_roundtrip]); [scanf("%d")] on text refines the
      list-of-numbers input of [Controller] ([scanf_d_refines]); the
      transcript of a rejected quantity, whose message has no newline,
      is evaluated in [transcript_retry].
    - Stdio: on a terminal the children write nothing, since each is
      forked right after the menu's newline emptied the buffer
      ([children_silent_on_terminal]); to a file each child writes again
      everything printed before its [fork], from the welcome prompt on
      ([children_repeat_in_file]).
    - System: a kill command's turn sends SIGKILL to the selected pid and,
      once delivered, the counter is terminated for the rest of every run
      ([kill_action_terminates_counter]); a stop followed by a continue
      may leave the counter stopped ([stop_continue_race]); an identifier
      [0] lets the controller stop itself for good
      ([pid_zero_stops_controller]) and a kill command on [-1] kills every
      process and the controller ([kill_minus_one_kills_all]). Scenario A
      with running counters is replayed in [scenario_A_toggle].

    ** Bounds and fuel

    [int] is 32 bits ([CInt]). The quantity loop is run with fuel
    [length input + 1], which [qty_loop_spec] proves enough: each rejected
    answer consumes a number and at end of input [qty] is [0]. The
    interaction loop and [Counter.next_line] take fuel because the loop
    may run forever; the theorems say how much is enough ([qty] iterations
    to kill [qty] entries, four statements from anywhere in the counter's
    loop to its next [printf]), and [eof_repeats_last_command] shows that
    no fuel is enough for some inputs. The line parsers of [Console] take
    the length of the text as fuel, which is enough because every line
    read consumes at least one character.

    ** Not modelled

    The length of [sleep(1)] (one step of the counter); the kernel beyond
    what the programs observe (stated as the environment of the counter
    in [Counter.post_signal] and [Counter.take_signal] and as the target
    rule [Signals.kill_target_of]); how glibc splits the writing of a
    full stdio buffer ([Stdio] writes it at once, and its theorems keep
    below the buffer size); and which processes exist besides the
    controller and the counters ([kill(-1)] reaches only the processes of
    the world).

    ** Plan for the next steps

    The labelled steps of [Counter] lifted to [System], to state the
    toggle parity per counter along a whole system run; liveness of the
    counter (an infinite run from every reachable state that is not
    stopped or killed); the counter's own [stdout] through [Stdio]. *)

From Stdlib Require Import ZArith Lia.
From stdpp Require Import base list options.

Declare Scope c_scope.
Delimit Scope c_scope with c.

Create HintDb csem discriminated.
Create Rewrite HintDb csem_rw.

(** ** C [int] arithmetic

    [int] and [sig_atomic_t] are 32-bit two's complement on the targets of
    this code. Signed overflow is undefined behaviour: an operation gives
    [Some r] when the exact result is representable and [None] otherwise. *)
Module CInt.
Definition INT_MIN : Z := (- 2 ^ 31)%Z.
Definition INT_MAX : Z := (2 ^ 31 - 1)%Z.

Definition in_int (z : Z) : bool := (INT_MIN <=? z)%Z && (z <=? INT_MAX)%Z.

Definition add (a b : Z) : option Z :=
  let r := (a + b)%Z in if in_int r then Some r else None.

Definition neg (a : Z) : option Z :=
  let r := (- a)%Z in if in_int r then Some r else None.

Lemma in_int_spec z : in_int z = true <-> (INT_MIN <= z <= INT_MAX)%Z.
Proof. unfold in_int. rewrite andb_true_iff, !Z.leb_le. tauto. Qed.

Lemma add_Some a b r : add a b = Some r <-> r = (a + b)%Z /\ (INT_MIN <= a + b <= INT_MAX)%Z.
Proof.
  unfold add. rewrite <- in_int_spec.
  destruct (in_int (a + b)); split; intros H; destruct_and?; simplify_eq; auto; congruence.
Qed.

Lemma add_None a b : add a b = None <-> ~ (INT_MIN <= a + b <= INT_MAX)%Z.
Proof.
  unfold add. rewrite <- in_int_spec. destruct (in_int (a + b)); split; congruence || auto.
Qed.

Lemma add_in_range a b : (INT_MIN <= a + b <= INT_MAX)%Z -> add a b = Some (a + b)%Z.
Proof. intros H. by apply add_Some. Qed.

Lemma neg_unit s : (s = 1 \/ s = -1)%Z -> neg s = Some (- s)%Z.
Proof. intros [-> | ->]; reflexivity. Qed.
End CInt.

Infix "+!" := CInt.add (at level 50, left associativity) : c_scope.
Notation "-! x" := (CInt.neg x) (at level 35, right associativity) : c_scope.

#[export] Hint Resolve CInt.add_in_range CInt.neg_unit : csem.

(** ** Removing one element of a sequence, the reference definition *)

Definition remove_nth {A} (k : nat) (l : list A) : list A := take k l ++ drop (S k) l.

Section RemoveNth.
Context {A : Type}.
Implicit Types (l : list A) (k j : nat).

Lemma length_remove_nth k l : k < length l -> length (remove_nth k l) = pred (length l).
Proof. intros Hk. unfold remove_nth. rewrite length_app, length_take, length_drop. lia. Qed.

Lemma lookup_remove_nth_lt k j l : j < k -> remove_nth k l !! j = l !! j.
Proof.
  intros Hj. unfold remove_nth. destruct (decide (j < length l)).
  - rewrite lookup_app_l by (rewrite length_take; lia). by apply lookup_take_lt.
  - rewrite !lookup_ge_None_2; [done| lia |].
    rewrite length_app, length_take, length_drop. lia.
Qed.

Lemma lookup_remove_nth_ge k j l : k < length l -> k <= j -> remove_nth k l !! j = l !! S j.
Proof.
  intros Hk Hj. unfold remove_nth.
  rewrite lookup_app_r by (rewrite length_take; lia).
  rewrite lookup_drop, length_take. f_equal. lia.
Qed.

Lemma remove_nth_sublist k l : sublist (remove_nth k l) l.
Proof.
  unfold remove_nth. transitivity (take k l ++ drop k l); [|by rewrite take_drop].
  apply sublist_app; [done|].
  replace (drop (S k) l) with (drop 1 (drop k l)) by (rewrite drop_drop; f_equal; lia).
  apply sublist_drop.
Qed.

(** [map] is the [fmap] of lists; its lookups as stdpp states them. *)
Lemma lookup_map {B} (f : A -> B) (l : list A) i : map f l !! i = f <$> l !! i.
Proof. apply list_lookup_fmap. Qed.
End RemoveNth.

#[export] Hint Rewrite @lookup_remove_nth_lt @length_remove_nth using lia : csem_rw.

(** ** Proof tactics shared by the components *)

(** Invert a hypothesis and clean up. *)
Ltac invc H := inversion H; subst; clear H.

(** Rewrite the results of [CInt] operations whose operands are in range. *)
Ltac c_arith :=
  repeat match goal with
  | |- context [CInt.add ?a ?b] => rewrite (CInt.add_in_range a b) by (unfold CInt.INT_MIN, CInt.INT_MAX in *; lia)
  | |- context [CInt.neg ?s] => rewrite (CInt.neg_unit s) by lia
  end.
