(* ===== verification/Signals.v ===== *)
(** * Signals: what the two programs send and receive

    The five signals named in handler.c and counter.c, with their Linux
    numbers (counter.c's [handler] compares its [int sig] argument with
    [SIGUSR1] and [SIGUSR2] as numbers), the rule by which [kill(2)] picks
    its target from the [pid] argument, and the interface
    [SignalTarget]: what a process that receives signals offers to the
    process sending them. The counter implements it ([Counter]), the
    composition of controller and counters uses it. *)

From Stdlib Require Import ZArith Lia.
From stdpp Require Import base list options.
From S2P Require Import Prelude.

Inductive signal := SIGSTOP | SIGCONT | SIGUSR1 | SIGUSR2 | SIGKILL.

#[export] Instance signal_eq_dec : EqDecision signal.
Proof. solve_decision. Defined.

(** The numbers of [<signal.h>] on Linux (x86-64 and arm64). *)
Definition signal_number (s : signal) : Z :=
  match s with
  | SIGSTOP => 19 | SIGCONT => 18 | SIGUSR1 => 10 | SIGUSR2 => 12 | SIGKILL => 9
  end%Z.

Definition signal_of_number (n : Z) : option signal :=
  match n with
  | 19 => Some SIGSTOP | 18 => Some SIGCONT | 10 => Some SIGUSR1
  | 12 => Some SIGUSR2 | 9 => Some SIGKILL | _ => None
  end%Z.

Lemma signal_of_number_of_signal s : signal_of_number (signal_number s) = Some s.
Proof. by destruct s. Qed.

Lemma signal_number_inj s t : signal_number s = signal_number t -> s = t.
Proof.
  intros H. apply (inj Some). by rewrite <- !signal_of_number_of_signal, H.
Qed.

(** SIGKILL and SIGSTOP cannot be caught; SIGCONT, SIGUSR1 and SIGUSR2 can. *)
Definition catchable (s : signal) : bool :=
  match s with SIGKILL | SIGSTOP => false | _ => true end.

(** ** Who [kill(pid, sig)] reaches (POSIX) *)
Inductive kill_target :=
  | ToProcess (p : Z)      (** [pid > 0]: that process *)
  | ToOwnGroup             (** [pid = 0]: every process of the sender's group *)
  | ToEveryone             (** [pid = -1]: every process the sender may signal *)
  | ToGroup (g : Z).       (** [pid < -1]: every process of group [-pid] *)

Definition kill_target_of (pid : Z) : kill_target :=
  if decide (0 < pid)%Z then ToProcess pid
  else if decide (pid = 0)%Z then ToOwnGroup
  else if decide (pid = -1)%Z then ToEveryone
  else ToGroup (- pid)%Z.

(** ** The interface of a signal receiver

    [post s p] is the kernel's immediate reaction to [kill] reaching [p]
    (mark a catchable signal pending, stop, continue or terminate);
    [terminated p] says that the process is gone. *)
Class SignalTarget (P : Type) := {
  post : signal -> P -> P;
  terminated : P -> bool;
}.

Class SignalTargetLaws (P : Type) `{!SignalTarget P} := {
  post_kill_terminates : forall p, terminated (post SIGKILL p) = true;
  post_terminated_inert : forall s p, terminated p = true -> post s p = p;
}.

(** Posting a list of signals in order. *)
Definition post_all {P} `{!SignalTarget P} (ss : list signal) (p : P) : P :=
  foldl (fun q s => post s q) p ss.

Section Receiver.
Local Set Default Proof Using "All".
Context {P : Type} `{!SignalTarget P} `{!SignalTargetLaws P}.

Lemma post_all_app ss1 ss2 p : post_all (ss1 ++ ss2) p = post_all ss2 (post_all ss1 p).
Proof. unfold post_all. by rewrite foldl_app. Qed.

Lemma post_all_terminated ss p : terminated p = true -> post_all ss p = p.
Proof.
  revert p. induction ss as [|s ss IH]; intros p Hp; [done|].
  simpl. rewrite post_terminated_inert by done. by apply IH.
Qed.

(** Once a SIGKILL has been posted, later signals change nothing. *)
Lemma post_all_after_kill ss1 ss2 p :
  terminated (post_all (ss1 ++ SIGKILL :: ss2) p) = true.
Proof.
  rewrite post_all_app. change (post_all (SIGKILL :: ss2) ?q) with (post_all ss2 (post SIGKILL q)).
  rewrite post_all_terminated; apply post_kill_terminates.
Qed.
End Receiver.
