(* ===== verification/Counter.v ===== *)
(** * Counter: src/Signals/infcounter/src/counter.c

    The globals [i] and [sign] ([Counter.globals]), the signal handler
    ([Counter.handler]), and [main] as a small-step machine: a program
    counter for each statement of [main] ([Counter.pc]), the kernel's view
    of the process (run status, one pending flag per catchable user
    signal, the lines printed so far: [Counter.proc]), the program's own
    step ([Counter.prog_step]), the delivery of a pending signal
    ([Counter.take_signal]) and the arrival of a signal sent by [kill]
    ([Counter.post_signal]). [Counter.pstep] is the process's step relation and
    [Counter.cstep] adds the signals its environment may send at any time;
    [Counter.lstep] is the same relation with each step labelled by
    what happened (a statement, an arrival, a delivery).

    [i += sign] is split, as the compiled code is, into a load of both
    globals ([Load]) and a store of their sum ([Store]): a handler may run
    between the two. Loading both globals in one step loses no behaviour:
    a handler running between two separate loads gives the same result as
    running it before or after this one. *)

From Stdlib Require Import ZArith Lia.
From stdpp Require Import base list options relations.
From S2P Require Import Prelude Signals.

Local Open Scope Z_scope.

Module Counter.

(** [volatile sig_atomic_t i = 0; volatile sig_atomic_t sign = 1;] *)
Record globals := mkGlobals { i : Z; sign : Z }.

Definition init_globals : globals := mkGlobals 0 1.

(** [void handler(int sig)]: two independent [if]s, as in the source. The
    negation is C's: it is undefined for [INT_MIN]. *)
Definition handler (sig : Z) (g : globals) : option globals :=
  let g1 := if sig =? signal_number SIGUSR1 then mkGlobals 0 (sign g) else g in
  if sig =? signal_number SIGUSR2 then
    match (-! sign g1)%c with
    | Some s => Some (mkGlobals (i g1) s)
    | None => None
    end
  else Some g1.

(** The statements of [main]:
    - [Start]: before [signal(SIGUSR1, handler)];
    - [Reg1]: before [signal(SIGUSR2, handler)];
    - [Print]: [printf("current count is '%d' : %d\n", i, getpid())];
    - [Load]: the loads of [i] and [sign] for [i += sign];
    - [Store a s]: the store of [a + s] into [i], [a] and [s] the loaded values;
    - [Sleep]: [sleep(1)]. *)
Inductive pc := Start | Reg1 | Print | Load | Store (a s : Z) | Sleep.

#[export] Instance pc_eq_dec : EqDecision pc.
Proof. solve_decision. Defined.

(** [Running] and [Stopped] are the scheduler's states; [Terminated] the
    process is gone; [UB] the process executed an overflowing [i += sign]
    or negation, after which C gives it no meaning. *)
Inductive status := Running | Stopped | Terminated | UB.

#[export] Instance status_eq_dec : EqDecision status.
Proof. solve_decision. Defined.

Record proc := mkProc {
  pid : Z;
  glob : globals;
  at_pc : pc;
  st : status;
  pend_usr1 : bool;
  pend_usr2 : bool;
  out : list (Z * Z);   (** the lines printed: the value of [i] and the pid *)
}.

Definition init_proc (p : Z) : proc := mkProc p init_globals Start Running false false [].

Definition set_glob (g : globals) (p : proc) : proc :=
  mkProc (pid p) g (at_pc p) (st p) (pend_usr1 p) (pend_usr2 p) (out p).
Definition set_pc (c : pc) (p : proc) : proc :=
  mkProc (pid p) (glob p) c (st p) (pend_usr1 p) (pend_usr2 p) (out p).
Definition set_st (s : status) (p : proc) : proc :=
  mkProc (pid p) (glob p) (at_pc p) s (pend_usr1 p) (pend_usr2 p) (out p).
Definition emit (p : proc) : proc :=
  mkProc (pid p) (glob p) (at_pc p) (st p) (pend_usr1 p) (pend_usr2 p)
    (out p ++ [(i (glob p), pid p)]).

(** One statement of [main] (lines 29 to 41). After [sleep(1)] the loop
    goes back to the [printf]. *)
Definition prog_step (p : proc) : proc :=
  match at_pc p with
  | Start => set_pc Reg1 p
  | Reg1 => set_pc Print p
  | Print => set_pc Load (emit p)
  | Load => set_pc (Store (i (glob p)) (sign (glob p))) p
  | Store a s =>
      match (a +! s)%c with
      | Some v => set_pc Sleep (set_glob (mkGlobals v (sign (glob p))) p)
      | None => set_st UB p
      end
  | Sleep => set_pc Print p
  end.

(** Is [handler] installed for [s] at this point of [main]? *)
Definition installed (c : pc) (s : signal) : bool :=
  match s, c with
  | SIGUSR1, Start => false
  | SIGUSR1, _ => true
  | SIGUSR2, (Start | Reg1) => false
  | SIGUSR2, _ => true
  | _, _ => false
  end.

Definition pending (s : signal) (p : proc) : bool :=
  match s with SIGUSR1 => pend_usr1 p | SIGUSR2 => pend_usr2 p | _ => false end.

Definition set_pending (s : signal) (b : bool) (p : proc) : proc :=
  match s with
  | SIGUSR1 => mkProc (pid p) (glob p) (at_pc p) (st p) b (pend_usr2 p) (out p)
  | SIGUSR2 => mkProc (pid p) (glob p) (at_pc p) (st p) (pend_usr1 p) b (out p)
  | _ => p
  end.

(** A handled signal interrupts [sleep], which returns early. *)
Definition wake (c : pc) : pc := match c with Sleep => Print | c => c end.

(** The kernel delivers a pending [s]: it runs [handler] if installed,
    otherwise applies the default action of SIGUSR1/SIGUSR2, which is to
    terminate the process. *)
Definition take_signal (s : signal) (p : proc) : proc :=
  let p' := set_pending s false p in
  if installed (at_pc p) s then
    match handler (signal_number s) (glob p) with
    | Some g' => set_pc (wake (at_pc p)) (set_glob g' p')
    | None => set_st UB p'
    end
  else set_st Terminated p'.

(** [kill(pid, s)] reaching the process: SIGKILL terminates it, SIGSTOP and
    SIGCONT stop and resume it, SIGUSR1 and SIGUSR2 become pending (a
    second one of the same kind while one is pending is merged with it). *)
Definition post_signal (s : signal) (p : proc) : proc :=
  match st p with
  | Terminated => p
  | UB => match s with SIGKILL => set_st Terminated p | _ => p end
  | Running | Stopped =>
      match s with
      | SIGKILL => set_st Terminated p
      | SIGSTOP => set_st Stopped p
      | SIGCONT => set_st Running p
      | SIGUSR1 | SIGUSR2 => set_pending s true p
      end
  end.

Definition is_terminated (p : proc) : bool :=
  match st p with Terminated => true | _ => false end.

#[export] Instance proc_signal_target : SignalTarget proc :=
  {| post := post_signal; terminated := is_terminated |}.

(** The process's own steps: a statement of [main], or the delivery of a
    pending signal, both only while it is scheduled. *)
Inductive pstep : proc -> proc -> Prop :=
  | pstep_prog p :
      st p = Running -> pstep p (prog_step p)
  | pstep_signal s p :
      st p = Running -> pending s p = true -> pstep p (take_signal s p).

(** The process together with the signals sent to it at any moment. *)
Inductive cstep : proc -> proc -> Prop :=
  | cstep_proc p q : pstep p q -> cstep p q
  | cstep_post s p : cstep p (post_signal s p).

Definition reachable (p0 p : proc) : Prop := rtc cstep p0 p.

(** The steps of [cstep] with what happened in each: a statement of
    [main], the delivery of a pending signal, the arrival of a signal. *)
Inductive label := LProg | LTake (s : signal) | LPost (s : signal).

#[export] Instance label_eq_dec : EqDecision label.
Proof. solve_decision. Defined.

Inductive lstep : label -> proc -> proc -> Prop :=
  | lstep_prog p : st p = Running -> lstep LProg p (prog_step p)
  | lstep_take s p : st p = Running -> pending s p = true -> lstep (LTake s) p (take_signal s p)
  | lstep_post s p : lstep (LPost s) p (post_signal s p).

Inductive lsteps : list label -> proc -> proc -> Prop :=
  | lsteps_nil p : lsteps [] p p
  | lsteps_cons l ls p q r : lstep l p q -> lsteps ls q r -> lsteps (l :: ls) p r.

(** How many SIGUSR2 were delivered in a run. *)
Definition toggles (ls : list label) : nat := length (filter (fun l => l = LTake SIGUSR2) ls).

(** [n] SIGUSR2 handled in a row, with no statement of [main] between. *)
Definition toggle_n (n : nat) (g : globals) : option globals :=
  Nat.iter n (fun og => og ≫= handler (signal_number SIGUSR2)) (Some g).

(** The value printed by the next [printf] when [main] runs alone, within
    [fuel] statements. *)
Fixpoint next_line (fuel : nat) (p : proc) : option Z :=
  match fuel with
  | O => None
  | S f =>
      match at_pc p, st p with
      | Print, Running => Some (i (glob p))
      | _, Running => next_line f (prog_step p)
      | _, _ => None
      end
  end.

(** ** The invariant: [sign] is [1] or [-1], [i] is an [int] *)

Definition sign_ok (s : Z) : Prop := s = 1 \/ s = -1.

Definition inv (p : proc) : Prop :=
  sign_ok (sign (glob p)) /\ CInt.in_int (i (glob p)) = true /\
  (forall a s, at_pc p = Store a s -> sign_ok s /\ CInt.in_int a = true).


(** Both [signal] calls of lines 29 and 30 have run. *)
Definition registered (c : pc) : bool := match c with Start | Reg1 => false | _ => true end.

(** Concrete processes on which the theorems are exercised. *)
Definition sample_sleeping : proc := mkProc 77 (mkGlobals 5 1) Sleep Running false false [].
Definition sample_storing : proc := mkProc 1 (mkGlobals 7 1) (Store 3 1) Running true false [].
Definition sample_printing : proc := mkProc 9 (mkGlobals (-2) (-1)) Print Running false false [].

(** ** Lemmas on the operations *)

Lemma handler_usr1 g : handler (signal_number SIGUSR1) g = Some (mkGlobals 0 (sign g)).
Proof. reflexivity. Qed.

Lemma handler_usr2 g : sign_ok (sign g) -> handler (signal_number SIGUSR2) g = Some (mkGlobals (i g) (- sign g)).
Proof. intros Hs. unfold handler; cbn -[CInt.neg]. rewrite CInt.neg_unit by done. by destruct g. Qed.

Lemma handler_other sig g :
  sig <> signal_number SIGUSR1 -> sig <> signal_number SIGUSR2 -> handler sig g = Some g.
Proof. intros H1 H2. unfold handler. by rewrite (proj2 (Z.eqb_neq _ _) H1), (proj2 (Z.eqb_neq _ _) H2). Qed.

Lemma sign_ok_neg s : sign_ok s -> sign_ok (- s).
Proof. unfold sign_ok. lia. Qed.

Lemma in_int_0 : CInt.in_int 0 = true.
Proof. reflexivity. Qed.

Lemma in_int_sign s : sign_ok s -> CInt.in_int s = true.
Proof. intros [-> | ->]; reflexivity. Qed.

#[export] Hint Resolve sign_ok_neg in_int_0 in_int_sign : csem.

Lemma handler_inv sig g g' :
  sign_ok (sign g) -> CInt.in_int (i g) = true -> handler sig g = Some g' ->
  sign_ok (sign g') /\ CInt.in_int (i g') = true.
Proof.
  intros Hs Hi.
  destruct (decide (sig = signal_number SIGUSR1)) as [->|H1];
    [rewrite handler_usr1; intros [= <-]; simpl; auto with csem|].
  destruct (decide (sig = signal_number SIGUSR2)) as [->|H2];
    [rewrite handler_usr2 by done; intros [= <-]; simpl; auto with csem|].
  rewrite handler_other by done. intros [= <-]. auto.
Qed.

Lemma prog_step_inv p : inv p -> inv (prog_step p).
Proof.
  intros (Hs & Hi & Hst). unfold prog_step, inv.
  destruct (at_pc p) eqn:E; simpl; try by (split_and!; [done|done|intros ?? [=]]).
  - split_and!; [done|done|by intros ?? [= <- <-]].
  - destruct (Hst a s eq_refl) as [Hs' Ha].
    destruct (a +! s)%c eqn:Ea; simpl.
    + apply CInt.add_Some in Ea as [-> Hr].
      split_and!; [done| by apply CInt.in_int_spec | by intros ?? [=]].
    + rewrite E. split_and!; done.
Qed.
Lemma take_signal_inv s p : inv p -> inv (take_signal s p).
Proof.
  intros (Hs & Hi & Hst). unfold take_signal, inv.
  destruct (installed (at_pc p) s); [|destruct s; simpl; split_and!; done].
  destruct (handler (signal_number s) (glob p)) as [g'|] eqn:Eh;
    [|destruct s; simpl; split_and!; done].
  destruct (handler_inv _ _ _ Hs Hi Eh) as [Hs' Hi'].
  destruct s; simpl; split_and!; try done;
    destruct (at_pc p); simpl; try done; by intros ?? [=].
Qed.
Lemma post_signal_inv s p : inv p -> inv (post_signal s p).
Proof.
  intros (Hs & Hi & Hst). unfold post_signal, inv.
  destruct (st p), s; simpl; split_and!; done.
Qed.

Lemma cstep_inv p q : inv p -> cstep p q -> inv q.
Proof.
  intros Hp Hs. destruct Hs as [? ? [|]|];
    auto using prog_step_inv, take_signal_inv, post_signal_inv.
Qed.

Lemma init_inv n : inv (init_proc n).
Proof. repeat split; simpl; try done. unfold sign_ok. auto. Qed.

Lemma rtc_inv p q : inv p -> rtc cstep p q -> inv q.
Proof. intros Hp Hr. induction Hr; eauto using cstep_inv. Qed.

(** C3: In every state of counter.c reachable from its start, whatever
    signals arrive and whenever the handler runs, sign is 1 or -1, i is an
    int, and a pending store of i += sign holds such values. *)
Theorem reachable_inv n p : reachable (init_proc n) p -> inv p.
Proof. intros Hr. eapply rtc_inv; [apply init_inv|exact Hr]. Qed.

Lemma prog_step_sign p : sign (glob (prog_step p)) = sign (glob p).
Proof. unfold prog_step. destruct (at_pc p); try done. by destruct (_ +! _)%c. Qed.

Lemma take_signal_sign s p : s <> SIGUSR2 -> sign (glob (take_signal s p)) = sign (glob p).
Proof.
  intros Hs. unfold take_signal.
  destruct (installed _ _); [|by destruct s].
  destruct s; try done; simpl; by destruct (at_pc p).
Qed.

Lemma post_signal_glob s p : glob (post_signal s p) = glob p.
Proof. unfold post_signal. by destruct (st p), s. Qed.

(** C27: The direction sign changes in a step only when the process runs its
    handler for SIGUSR2; statements of main, SIGUSR1 and the signals sent
    never change it. *)
Theorem sign_changes_only_by_toggle p q :
  cstep p q -> sign (glob q) <> sign (glob p) ->
  q = take_signal SIGUSR2 p /\ installed (at_pc p) SIGUSR2 = true.
Proof.
  intros Hs Hne. destruct Hs as [? ? [p' _|s p' _ _]|s p'].
  - by rewrite prog_step_sign in Hne.
  - destruct (decide (s = SIGUSR2)) as [->|Hs]; [|by rewrite take_signal_sign in Hne].
    split; [done|]. unfold take_signal in Hne.
    destruct (installed (at_pc p') SIGUSR2); [done|by contradict Hne].
  - by rewrite post_signal_glob in Hne.
Qed.

(** Starting from sign 1, n handled SIGUSR2 leave sign at 1 if n is
    even and -1 if n is odd, and never change i. *)
Theorem toggle_parity n g :
  sign g = 1 -> toggle_n n g = Some (mkGlobals (i g) (if Nat.even n then 1 else -1)).
Proof.
  intros Hs. unfold toggle_n. induction n as [|n IH]; [by destruct g; simpl in *; subst|].
  rewrite Nat.iter_succ, IH, Nat.even_succ, <- Nat.negb_even. simpl.
  rewrite handler_usr2 by (destruct (Nat.even n); unfold sign_ok; auto).
  by destruct (Nat.even n).
Qed.

(** C4: The value printed next after a SIGUSR1 is handled depends on where
    main is: 0 if it lands at the printf, in the sleep or before the loop;
    the current sign if it lands between the printf and the loads of i +=
    sign; and the old value plus sign (the reset is lost) if it lands
    between the loads and the store; before the handler is installed the
    process dies and prints nothing. *)
Theorem reset_next_line p :
  inv p -> st p = Running ->
  next_line 4 (take_signal SIGUSR1 p) =
    match at_pc p with
    | Start => None
    | Reg1 | Print | Sleep => Some 0
    | Load => Some (sign (glob p))
    | Store a s => (a +! s)%c
    end.
Proof.
  intros (Hs & Hi & Hst) Hr. destruct p as [pd [x sg] c sts p1 p2 o]; simpl in *; subst sts.
  destruct c; try done.
  - by destruct Hs as [-> | ->].
  - cbn -[CInt.add]. by destruct (a +! s)%c.
Qed.

Lemma one_iteration p :
  at_pc p = Print -> (CInt.INT_MIN <= i (glob p) + sign (glob p) <= CInt.INT_MAX) ->
  Nat.iter 4 prog_step p =
    mkProc (pid p) (mkGlobals (i (glob p) + sign (glob p)) (sign (glob p))) Print (st p)
      (pend_usr1 p) (pend_usr2 p) (out p ++ [(i (glob p), pid p)]).
Proof.
  destruct p as [pd [x sg] c sts p1 p2 o]; simpl; intros -> H.
  cbn -[CInt.add]. by rewrite CInt.add_in_range.
Qed.

(** The main loop without signals, from the [printf] with [i = x]. *)
Lemma iter_loop pd x sg sts p1 p2 o n :
  sign_ok sg -> CInt.INT_MIN <= x <= CInt.INT_MAX ->
  CInt.INT_MIN <= x + Z.of_nat n * sg <= CInt.INT_MAX ->
  Nat.iter (4 * n) prog_step (mkProc pd (mkGlobals x sg) Print sts p1 p2 o) =
    mkProc pd (mkGlobals (x + Z.of_nat n * sg) sg) Print sts p1 p2
      (o ++ map (fun k => (x + Z.of_nat k * sg, pd)) (seq 0 n)).
Proof.
  intros Hs H0 Hn. induction n as [|n IH].
  - simpl. by rewrite app_nil_r, Z.add_0_r.
  - replace (4 * S n)%nat with (4 + 4 * n)%nat by lia. rewrite Nat.iter_add.
    rewrite IH by (destruct Hs as [E|E]; rewrite E in *; lia).
    rewrite one_iteration by (cbn [glob i sign at_pc]; try done; destruct Hs as [E|E]; rewrite E in *; lia).
    cbn [glob i sign pid st pend_usr1 pend_usr2 out].
    rewrite seq_S, map_app, app_assoc.
    by replace (x + Z.of_nat n * sg + sg) with (x + Z.of_nat (S n) * sg) by lia.
Qed.

(** C24: Without signals, n iterations of the main loop from the printf
    print i0, i0 + sign, ..., i0 + (n-1) sign and leave i at i0 + n sign,
    provided that value is an int. *)
Theorem run_without_signals n p :
  at_pc p = Print -> sign_ok (sign (glob p)) ->
  (CInt.INT_MIN <= i (glob p) <= CInt.INT_MAX) ->
  (CInt.INT_MIN <= i (glob p) + Z.of_nat n * sign (glob p) <= CInt.INT_MAX) ->
  Nat.iter (4 * n) prog_step p =
    mkProc (pid p) (mkGlobals (i (glob p) + Z.of_nat n * sign (glob p)) (sign (glob p))) Print
      (st p) (pend_usr1 p) (pend_usr2 p)
      (out p ++ map (fun k => (i (glob p) + Z.of_nat k * sign (glob p), pid p)) (seq 0 n)).
Proof.
  destruct p as [pd [x sg] c sts p1 p2 o]; cbn [at_pc glob i sign pid st pend_usr1 pend_usr2 out].
  intros -> Hs H0 Hn. by apply iter_loop.
Qed.

(** C25: Left alone, the counter prints 0, 1, ..., INT_MAX - 1 with i
    reaching INT_MAX, and the next i += sign overflows, which is undefined
    behaviour in C. *)
Theorem overflow_after_INT_MAX_lines n :
  let p := Nat.iter (4 * Z.to_nat CInt.INT_MAX) prog_step (Nat.iter 2 prog_step (init_proc n)) in
  i (glob p) = CInt.INT_MAX /\
  out p = map (fun k => (Z.of_nat k, n)) (seq 0 (Z.to_nat CInt.INT_MAX)) /\
  st (Nat.iter 3 prog_step p) = UB.
Proof.
  intros p. subst p. set (N := Z.to_nat CInt.INT_MAX).
  assert (HN : Z.of_nat N = CInt.INT_MAX) by (apply Z2Nat.id; unfold CInt.INT_MAX; lia).
  clearbody N.
  assert (Nat.iter 2 prog_step (init_proc n) = mkProc n (mkGlobals 0 1) Print Running false false [])
    as -> by reflexivity.
  rewrite iter_loop; cbn [glob i sign pid out at_pc init_globals]; try done.
  - rewrite HN. split_and!; [lia| |reflexivity].
    apply map_ext_in. intros k _. f_equal. lia.
  - unfold sign_ok. auto.
  - rewrite HN. unfold CInt.INT_MIN, CInt.INT_MAX. lia.
Qed.


Lemma prog_step_st p : st (prog_step p) = st p \/ st (prog_step p) = UB.
Proof. unfold prog_step. destruct (at_pc p); auto. destruct (_ +! _)%c; auto. Qed.

Lemma take_signal_st_registered s p :
  registered (at_pc p) = true -> pending s p = true ->
  st (take_signal s p) = st p \/ st (take_signal s p) = UB.
Proof.
  intros Hr Hp. unfold take_signal.
  destruct s; try discriminate; destruct (at_pc p); try discriminate; simpl;
    repeat case_match; auto.
Qed.

(** C26: Once both handlers are installed, the counter process can only
    become terminated through a SIGKILL sent to it; it never exits by itself
    and the user signals never kill it. *)
Theorem terminates_only_by_sigkill p q :
  registered (at_pc p) = true -> cstep p q ->
  is_terminated p = false -> is_terminated q = true -> q = post_signal SIGKILL p.
Proof.
  intros Hr Hs Hp Hq. unfold is_terminated in *.
  destruct Hs as [? ? [p' Hrun|s p' Hrun Hpend]|s p'].
  - destruct (prog_step_st p') as [E|E]; rewrite E in Hq; [rewrite Hrun in Hq|]; done.
  - destruct (take_signal_st_registered s p' Hr Hpend) as [E|E]; rewrite E in Hq;
      [rewrite Hrun in Hq|]; done.
  - destruct s; [| | | |done]; exfalso; unfold post_signal in Hq;
      destruct (st p') eqn:E; simpl in Hq; rewrite ?E in *; done.
Qed.

(** The kernel merges a signal sent again while one of its kind is pending. *)
Theorem post_signal_idempotent s p : post_signal s (post_signal s p) = post_signal s p.
Proof. destruct p as [? ? ? [] ? ? ?], s; reflexivity. Qed.

#[export] Instance proc_signal_target_laws : SignalTargetLaws proc.
Proof.
  split.
  - by intros [? ? ? [] ? ? ?].
  - intros s [? ? ? [] ? ? ?] H; done.
Qed.

Lemma iter_prog_rtc n p :
  (forall k, (k < n)%nat -> st (Nat.iter k prog_step p) = Running) ->
  rtc cstep p (Nat.iter n prog_step p).
Proof.
  induction n as [|n IH]; intros H; [done|]. rewrite Nat.iter_succ.
  eapply rtc_r; [apply IH; intros; apply H; lia|].
  apply cstep_proc, pstep_prog, H. lia.
Qed.

Lemma post_then_take_rtc s p :
  st (post_signal s p) = Running -> pending s (post_signal s p) = true ->
  rtc cstep p (take_signal s (post_signal s p)).
Proof.
  intros Hr Hp. eapply rtc_l; [apply cstep_post|]. by apply rtc_once, cstep_proc, pstep_signal.
Qed.

(** Discharge [forall k, k < n -> st (Nat.iter k prog_step p) = Running] for a
    concrete [n] by evaluating each prefix. *)
Ltac running_prefix :=
  intros k Hk; repeat (destruct k as [|k]; [reflexivity|try (exfalso; lia)]).

(** C28: A reachable run exists in which a SIGUSR1 is delivered and handled
    (i becomes 0) and yet the next printed value is 4, not 0: the reset
    lands between the load and the store of i += sign. *)
Theorem reset_lost_reachable :
  let q := take_signal SIGUSR1 (post_signal SIGUSR1 (Nat.iter 16 prog_step (init_proc 4242))) in
  reachable (init_proc 4242) q /\ i (glob q) = 0 /\ next_line 4 q = Some 4.
Proof.
  split; [|split; reflexivity].
  eapply rtc_trans; [apply (iter_prog_rtc 16); running_prefix|].
  by apply post_then_take_rtc.
Qed.

(** A SIGUSR1 delivered before main has installed the handler applies
    the default action and terminates the counter. *)
Theorem early_reset_kills n :
  let q := take_signal SIGUSR1 (post_signal SIGUSR1 (init_proc n)) in
  reachable (init_proc n) q /\ is_terminated q = true.
Proof. split; [by apply post_then_take_rtc|reflexivity]. Qed.

(** C32: Two SIGUSR2 sent while the counter sleeps merge into one pending
    signal: one handler run flips sign once, nothing stays pending, and the
    sleep ends early, the next printf following without the one-second wait. *)
Theorem toggles_coalesce p :
  st p = Running -> at_pc p = Sleep -> pend_usr2 p = false -> sign_ok (sign (glob p)) ->
  let q := take_signal SIGUSR2 (post_signal SIGUSR2 (post_signal SIGUSR2 p)) in
  sign (glob q) = - sign (glob p) /\ pending SIGUSR2 q = false /\ at_pc q = Print.
Proof.
  destruct p as [pd [x sg] c sts p1 p2 o]; simpl; intros -> -> -> Hs.
  unfold take_signal; cbn -[handler]. rewrite handler_usr2 by done. done.
Qed.



Lemma cstep_lstep p q : cstep p q <-> exists l, lstep l p q.
Proof.
  split.
  - intros Hs. destruct Hs as [? ? [p' Hr|s p' Hr Hp]|s p'].
    + exists LProg. by constructor.
    + exists (LTake s). by constructor.
    + exists (LPost s). constructor.
  - intros [l Hl]. destruct Hl as [p' Hr|s p' Hr Hp|s p'].
    + by apply cstep_proc, pstep_prog.
    + by apply cstep_proc, pstep_signal.
    + apply cstep_post.
Qed.

Lemma lstep_registered l p q : registered (at_pc p) = true -> lstep l p q -> registered (at_pc q) = true.
Proof.
  intros Hr Hs. destruct Hs as [p Hrun|s p Hrun Hp|s p].
  - unfold prog_step. destruct (at_pc p) eqn:E; try done; simpl; rewrite ?E; try done.
    by destruct (_ +! _)%c; simpl; rewrite ?E.
  - unfold take_signal. destruct (installed _ _); [|destruct s; simpl; done].
    destruct (handler _ _); destruct s; simpl; try done; destruct (at_pc p); done.
  - unfold post_signal. destruct (st p), s; simpl; done.
Qed.

Lemma lstep_sign l p q :
  registered (at_pc p) = true -> sign_ok (sign (glob p)) -> lstep l p q ->
  sign (glob q) = if decide (l = LTake SIGUSR2) then - sign (glob p) else sign (glob p).
Proof.
  intros Hr Hs Hst. destruct Hst as [p Hrun|s p Hrun Hp|s p].
  - simpl. apply prog_step_sign.
  - destruct (decide (s = SIGUSR2)) as [->|Hne].
    + rewrite decide_True by done. unfold take_signal.
      replace (installed (at_pc p) SIGUSR2) with true by (destruct (at_pc p); done).
      rewrite handler_usr2 by done. by destruct (at_pc p).
    + rewrite decide_False by congruence. by apply take_signal_sign.
  - rewrite decide_False by done. by rewrite post_signal_glob.
Qed.

(** C18: Once both handlers are installed, along any run of the counter that
    interleaves statements of main, signal arrivals and deliveries, the
    final sign is the initial sign if an even number of SIGUSR2 were
    delivered and its negation otherwise; the loop, SIGUSR1 and the other
    signals never change it. *)
Theorem toggle_parity_any_interleaving ls p q :
  registered (at_pc p) = true -> sign_ok (sign (glob p)) -> lsteps ls p q ->
  sign (glob q) = if Nat.even (toggles ls) then sign (glob p) else - sign (glob p).
Proof.
  intros Hr Hs Hsteps. induction Hsteps as [p|l ls p q r Hst Hsteps IH]; [done|].
  pose proof (lstep_sign l p q Hr Hs Hst) as Hq.
  rewrite IH.
  - rewrite Hq. unfold toggles. rewrite filter_cons.
    destruct (decide (l = LTake SIGUSR2)); [|done]. simpl length.
    rewrite Nat.even_succ, <- Nat.negb_even. destruct (Nat.even _); simpl; lia.
  - by eapply lstep_registered.
  - rewrite Hq. case_decide; [by apply sign_ok_neg|done].
Qed.

(** ** Witnesses *)

Lemma toggle_parity_any_interleaving_witness :
  let q := take_signal SIGUSR2 (post_signal SIGUSR2
             (prog_step (take_signal SIGUSR2 (post_signal SIGUSR2 sample_sleeping)))) in
  lsteps [LPost SIGUSR2; LTake SIGUSR2; LProg; LPost SIGUSR2; LTake SIGUSR2] sample_sleeping q /\
  sign (glob q) = 1.
Proof.
  intros q.
  assert (H : lsteps [LPost SIGUSR2; LTake SIGUSR2; LProg; LPost SIGUSR2; LTake SIGUSR2] sample_sleeping q).
  { eapply lsteps_cons; [apply lstep_post|].
    eapply lsteps_cons; [apply lstep_take; reflexivity|].
    eapply lsteps_cons; [apply lstep_prog; reflexivity|].
    eapply lsteps_cons; [apply lstep_post|].
    eapply lsteps_cons; [apply lstep_take; reflexivity|].
    apply lsteps_nil. }
  split; [exact H|].
  rewrite (toggle_parity_any_interleaving _ sample_sleeping q eq_refl (or_introl eq_refl) H).
  reflexivity.
Defined.

Lemma toggles_coalesce_witness :
  st sample_sleeping = Running /\ at_pc sample_sleeping = Sleep /\
  pend_usr2 sample_sleeping = false /\ sign_ok (sign (glob sample_sleeping)) /\
  sign (glob (take_signal SIGUSR2 (post_signal SIGUSR2 (post_signal SIGUSR2 sample_sleeping)))) = -1.
Proof.
  assert (Hs : sign_ok (sign (glob sample_sleeping))) by (left; reflexivity).
  split_and!; [reflexivity|reflexivity|reflexivity|exact Hs|].
  exact (proj1 (toggles_coalesce sample_sleeping eq_refl eq_refl eq_refl Hs)).
Defined.

Lemma reachable_inv_witness :
  let q := take_signal SIGUSR1 (post_signal SIGUSR1 (Nat.iter 16 prog_step (init_proc 4242))) in
  reachable (init_proc 4242) q /\ inv q.
Proof.
  assert (H : reachable (init_proc 4242)
    (take_signal SIGUSR1 (post_signal SIGUSR1 (Nat.iter 16 prog_step (init_proc 4242))))).
  { eapply rtc_trans; [apply (iter_prog_rtc 16); running_prefix|]. by apply post_then_take_rtc. }
  split; [exact H|]. exact (reachable_inv 4242 _ H).
Defined.

Lemma sign_changes_only_by_toggle_witness :
  let p := post_signal SIGUSR2 sample_sleeping in
  cstep p (take_signal SIGUSR2 p) /\ sign (glob (take_signal SIGUSR2 p)) <> sign (glob p) /\
  installed (at_pc p) SIGUSR2 = true.
Proof.
  assert (Hs : cstep (post_signal SIGUSR2 sample_sleeping)
                 (take_signal SIGUSR2 (post_signal SIGUSR2 sample_sleeping)))
    by (apply cstep_proc, pstep_signal; reflexivity).
  assert (Hne : sign (glob (take_signal SIGUSR2 (post_signal SIGUSR2 sample_sleeping)))
                <> sign (glob (post_signal SIGUSR2 sample_sleeping))) by discriminate.
  split_and!; [exact Hs|exact Hne|].
  exact (proj2 (sign_changes_only_by_toggle _ _ Hs Hne)).
Defined.

Lemma toggle_parity_witness :
  sign (mkGlobals 5 1) = 1 /\ toggle_n 3 (mkGlobals 5 1) = Some (mkGlobals 5 (-1)).
Proof. split; [reflexivity|]. apply (toggle_parity 3 (mkGlobals 5 1)). reflexivity. Defined.

Lemma reset_next_line_witness :
  inv sample_storing /\ st sample_storing = Running /\
  next_line 4 (take_signal SIGUSR1 sample_storing) = Some 4.
Proof.
  assert (Hi : inv sample_storing).
  { split_and!; [left; reflexivity|reflexivity|]. intros a s [= <- <-]. split; [left|]; reflexivity. }
  split_and!; [exact Hi|reflexivity|]. rewrite (reset_next_line sample_storing Hi eq_refl). reflexivity.
Defined.

Lemma run_without_signals_witness :
  Nat.iter (4 * 3) prog_step sample_printing =
    mkProc 9 (mkGlobals (-5) (-1)) Print Running false false [(-2, 9); (-3, 9); (-4, 9)].
Proof.
  rewrite (run_without_signals 3 sample_printing); try reflexivity.
  - right; reflexivity.
  - split; discriminate.
  - split; discriminate.
Defined.

Lemma terminates_only_by_sigkill_witness :
  registered (at_pc sample_sleeping) = true /\
  cstep sample_sleeping (post_signal SIGKILL sample_sleeping) /\
  post_signal SIGKILL sample_sleeping = post_signal SIGKILL sample_sleeping.
Proof.
  split_and!; [reflexivity|apply cstep_post|].
  apply (terminates_only_by_sigkill sample_sleeping); try reflexivity. apply cstep_post.
Defined.

End Counter.
