(* ===== verification/Registry.v ===== *)
(** * Registry: the [pids] array of src/Signals/src/handler.c

    handler.c keeps the identifiers it manages in [int *pids] with [qty]
    elements. Three pieces of code touch it: the input loop of lines 51
    to 53, the compaction loop of lines 113 to 115 in the kill case, and
    the [realloc] of line 117 that shrinks the array to the new [qty].

    A cell of the array is [option Z]: [Some z] once [scanf] stored [z]
    there, [None] while it still holds what [malloc] returned (an
    indeterminate value), which is what a [scanf] that fails leaves.

    The contract the controller relies on is the class [PidRegistry]: a
    sequence of entries in display order with a removal that deletes one
    entry and keeps the order of the others ([remove_nth]). The list
    itself is the abstract model ([list_registry]); the array with its
    compaction loop and [realloc] ([pid_array]) implements it
    ([pid_array_registry_laws]). *)

From Stdlib Require Import ZArith Lia.
From stdpp Require Import base list options.
From S2P Require Import Prelude.

Module Registry.

Definition cell := option Z.

(** [scanf("%d", &x)] on the remaining input: the next number and the
    rest of the input, or nothing when the input is exhausted. A token
    that is not a number is never consumed by [%d], so every later
    [scanf] fails as well: the input list models the numbers up to the
    first such token. *)
Definition scanf_int (inp : list Z) : option Z * list Z :=
  match inp with
  | [] => (None, [])
  | z :: inp' => (Some z, inp')
  end.

(** Lines 51 to 53: [for (int i = 0; i < qty; i++) scanf("%d", &pids[i]);]
    [read_loop i cnt pids inp] runs the iterations [i] to [i + cnt - 1]. *)
Fixpoint read_loop (i cnt : nat) (pids : list cell) (inp : list Z) : list cell * list Z :=
  match cnt with
  | O => (pids, inp)
  | S c =>
      match scanf_int inp with
      | (Some z, inp') => read_loop (S i) c (<[i := Some z]> pids) inp'
      | (None, inp') => read_loop (S i) c pids inp'
      end
  end.

(** The array [malloc] returns, then filled by the loop. *)
Definition read_pids (qty : nat) (inp : list Z) : list cell * list Z :=
  read_loop 0 qty (replicate qty None) inp.

Section Arrays.
Context {A : Type}.
Implicit Types (l : list A).

(** Lines 113 to 115: [for (int i = spec_counter - 1; i < qty - 1; i++)
    pids[i] = pids[i + 1];] as [shift_loop i cnt] for the iterations
    [i] to [i + cnt - 1]. The read [pids[i + 1]] is in bounds on every
    iteration the code runs. *)
Fixpoint shift_loop (i cnt : nat) (l : list A) : list A :=
  match cnt with
  | O => l
  | S c =>
      match l !! S i with
      | Some x => shift_loop (S i) c (<[i := x]> l)
      | None => shift_loop (S i) c l
      end
  end.

(** Line 116 and 117: [qty--] and [realloc(pids, qty * sizeof(int))],
    which keeps the first [qty] elements when it succeeds. *)
Definition shrink (qty : nat) (l : list A) : list A := take qty l.

(** The whole removal of the kill case for the 0-based index [k]. *)
Definition kill_entry (k : nat) (l : list A) : list A :=
  shrink (length l - 1) (shift_loop k (length l - 1 - k) l).
End Arrays.

(** ** The contract: an ordered registry with removal *)
Class PidRegistry (R : Type) := {
  entries : R -> list cell;
  remove_entry : nat -> R -> R;
}.

Class PidRegistryLaws (R : Type) `{!PidRegistry R} := {
  remove_entry_spec : forall k r, k < length (entries r) ->
    entries (remove_entry k r) = remove_nth k (entries r);
}.

(** The abstract model: the sequence itself. *)
#[export] Instance list_registry : PidRegistry (list cell) :=
  {| entries := fun l => l; remove_entry := remove_nth |}.

(** The implementation: [qty] and the array, as handler.c keeps them. *)
Record pid_array := mkArray { qty : Z; pids : list cell }.

Definition array_wf (a : pid_array) : Prop := qty a = Z.of_nat (length (pids a)).

Definition array_remove (k : nat) (a : pid_array) : pid_array :=
  mkArray (qty a - 1) (kill_entry k (pids a)).

#[export] Instance pid_array_registry : PidRegistry pid_array :=
  {| entries := pids; remove_entry := array_remove |}.

(** ** Lemmas and theorems *)

Section ArrayLemmas.
Context {A : Type}.
Implicit Types (l : list A).

Lemma lookup_shift_loop i cnt l j :
  i + cnt < length l ->
  shift_loop i cnt l !! j =
    if decide (j < i) then l !! j else if decide (j < i + cnt) then l !! S j else l !! j.
Proof.
  revert i l. induction cnt as [|c IH]; intros i l Hlen; simpl.
  - repeat case_decide; try done; lia.
  - destruct (lookup_lt_is_Some_2 l (S i)) as [x Hx]; [lia|]. rewrite Hx.
    rewrite IH by (rewrite length_insert; lia).
    rewrite !list_lookup_insert. repeat case_decide; destruct_and?; subst; try done; try lia.
Qed.

(** The compaction loop followed by the shrinking [realloc] computes
    [remove_nth k]. *)
Lemma kill_entry_remove_nth k l : k < length l -> kill_entry k l = remove_nth k l.
Proof.
  intros Hk. apply list_eq. intros j. unfold kill_entry, shrink.
  rewrite lookup_take, lookup_shift_loop by lia.
  destruct (decide (j < k)). { rewrite lookup_remove_nth_lt by done. case_decide; [done|lia]. }
  rewrite lookup_remove_nth_ge by lia.
  repeat case_decide; try lia; try done.
  symmetry. apply lookup_ge_None. lia.
Qed.

(** The compaction loop and [realloc] only move and drop elements. *)
Lemma Forall_shift_loop (P : A -> Prop) i cnt l : Forall P l -> Forall P (shift_loop i cnt l).
Proof.
  revert i l. induction cnt as [|c IH]; intros i l Hl; simpl; [done|].
  destruct (l !! S i) eqn:E; apply IH; [|done].
  apply Forall_insert; [done|]. by eapply Forall_lookup_1.
Qed.

Lemma Forall_kill_entry (P : A -> Prop) k l : Forall P l -> Forall P (kill_entry k l).
Proof. intros Hl. unfold kill_entry, shrink. by apply Forall_take, Forall_shift_loop. Qed.

End ArrayLemmas.

Lemma read_loop_spec i cnt (l : list cell) inp :
  i + cnt <= length l ->
  read_loop i cnt l inp =
    (take i l ++ map Some (take cnt inp) ++ drop (i + length (take cnt inp)) l, drop cnt inp).
Proof.
  revert i l inp. induction cnt as [|c IH]; intros i l inp Hlen; simpl.
  - simpl. rewrite Nat.add_0_r. by rewrite take_drop.
  - destruct inp as [|z inp']; simpl.
    + rewrite IH by lia. rewrite take_nil, drop_nil. simpl. rewrite !Nat.add_0_r, !take_drop. done.
    + rewrite IH by (rewrite length_insert; lia).
      rewrite (take_S_r (<[i:=Some z]> l) i (Some z)) by (apply list_lookup_insert_eq; lia).
      rewrite take_insert_ge, drop_insert_lt by lia.
      rewrite <- app_assoc, Nat.add_succ_r. done.
Qed.

(** C21: The identifier input loop stores the first qty input numbers in
    order and consumes them; when fewer are available the remaining cells
    keep the indeterminate value malloc returned. *)
Theorem read_pids_spec q inp :
  read_pids q inp = (map Some (take q inp) ++ replicate (q - length inp) None, drop q inp).
Proof.
  unfold read_pids. rewrite read_loop_spec by (rewrite length_replicate; lia).
  rewrite drop_replicate, length_take. simpl. do 3 f_equal. lia.
Qed.

(** C2: The kill case's compaction loop followed by the shrinking realloc
    removes exactly the entry at index k: the array is one shorter, entries
    before k stay in place, entries after k move down by one, and the
    survivors keep their relative order. *)
Theorem kill_entry_spec {A} k (l : list A) :
  k < length l ->
  length (kill_entry k l) = length l - 1 /\
  (forall j, j < k -> kill_entry k l !! j = l !! j) /\
  (forall j, k <= j -> kill_entry k l !! j = l !! S j) /\
  sublist (kill_entry k l) l.
Proof.
  intros Hk. rewrite kill_entry_remove_nth by done. split_and!.
  - rewrite length_remove_nth by done. lia.
  - intros j Hj. by apply lookup_remove_nth_lt.
  - intros j Hj. by apply lookup_remove_nth_ge.
  - apply remove_nth_sublist.
Qed.

Lemma array_remove_wf k a :
  array_wf a -> k < length (pids a) -> array_wf (array_remove k a).
Proof.
  unfold array_wf, array_remove. simpl. intros Hwf Hk.
  rewrite kill_entry_remove_nth, length_remove_nth by done. lia.
Qed.

#[export] Instance list_registry_laws : PidRegistryLaws (list cell).
Proof. split. by intros k r _. Qed.

#[export] Instance pid_array_registry_laws : PidRegistryLaws pid_array.
Proof. split. intros k a Hk. by apply kill_entry_remove_nth. Qed.

(** C6: The array of handler.c refines the abstract ordered registry:
    removing index k from a well-formed array yields a well-formed array
    whose entries are the abstract removal of entry k. *)
Theorem array_remove_refines k a :
  array_wf a -> k < length (pids a) ->
  array_wf (array_remove k a) /\ entries (array_remove k a) = remove_entry k (entries a).
Proof.
  intros Hwf Hk. split.
  - by apply array_remove_wf.
  - exact (remove_entry_spec (R := pid_array) k a Hk).
Qed.

(** ** Witnesses *)

Lemma kill_entry_spec_witness :
  (1 < length [111%Z; 222%Z; 333%Z]) /\
  length (kill_entry 1 [111%Z; 222%Z; 333%Z]) = 2 /\
  sublist (kill_entry 1 [111%Z; 222%Z; 333%Z]) [111%Z; 222%Z; 333%Z].
Proof.
  assert (Hk : 1 < length [111%Z; 222%Z; 333%Z]) by (simpl; lia).
  destruct (kill_entry_spec 1 [111%Z; 222%Z; 333%Z] Hk) as (Hlen & _ & _ & Hsub).
  split_and!; [exact Hk|exact Hlen|exact Hsub].
Defined.

Lemma array_remove_refines_witness :
  let a := mkArray 2 [Some 111%Z; Some 222%Z] in
  array_wf a /\ entries (array_remove 1 a) = [Some 111%Z].
Proof.
  assert (Hwf : array_wf (mkArray 2 [Some 111%Z; Some 222%Z])) by reflexivity.
  split; [exact Hwf|].
  rewrite (proj2 (array_remove_refines 1 _ Hwf ltac:(simpl; lia))). reflexivity.
Defined.

End Registry.
