(* ===== verification/Controller.v ===== *)
(** * Controller: [main] of src/Signals/src/handler.c

    The program is a sequence of loops over [scanf] input:
    - [qty_loop]: lines 26 to 38, ask for [qty] until it is in [0, 5];
    - [startup]: lines 40 to 53, [malloc] the array and read [qty]
      identifiers into it ([Registry.read_pids]);
    - [interact_step]: one iteration of the loop of lines 56 to 127: show
      the entries, read an index and an action, read [pids[index - 1]],
      fork a child that sends the signal, and on a kill remove the entry
      ([Registry.array_remove]) and [realloc];
    - [interact_loop]: [while (qty > 0)], then the goodbye message;
    - [main]: the whole program, returning how it ends and what it
      printed or sent.

    Input is a list of numbers ([Registry.scanf_int]); a [scanf] that
    finds no number leaves its variable unchanged. [Console.scanf_d]
    reads the same numbers from the text of standard input
    ([Console.scanf_d_refines]). Output is a list of
    [event]s: the lines printed, and [EvSend s p] for each child that
    [fork] created and that sends [s] to [p]. The environment decides
    whether [malloc], [realloc] and each [fork] succeed ([env]). Reading
    [pids[spec_counter - 1]] out of bounds is undefined behaviour: the
    run ends in [Undefined]. The interaction loop need not terminate (the
    operator may never kill anything), so it takes fuel and a run that
    uses it all ends in [OutOfFuel]. *)

From Stdlib Require Import ZArith Lia.
From stdpp Require Import base list options.
From S2P Require Import Prelude Signals Registry.

Local Open Scope Z_scope.

Module Controller.
Import Registry.

Inductive event :=
  | EvWelcome                 (** lines 27 to 30: the prompt for the quantity *)
  | EvWrongOption             (** line 33 *)
  | EvAllocFailed             (** line 43: [perror] *)
  | EvAskPids                 (** lines 48 to 50 *)
  | EvAskInstance             (** lines 57 to 59 *)
  | EvEntry (n : Z) (c : cell)  (** line 61: ["%d) %d\n"] *)
  | EvMenu                    (** lines 66 to 72 *)
  | EvSend (s : signal) (p : cell)  (** a forked child runs [kill(p, s)] *)
  | EvReallocFailed           (** line 119: [perror] *)
  | EvGoodbye.                (** lines 130 to 132 *)

#[export] Instance event_eq_dec : EqDecision event.
Proof. solve_decision. Defined.

(** Whether [malloc] and [realloc] return a non-NULL pointer for a size
    in bytes, and whether the [n]-th [fork] succeeds. *)
Record env := mkEnv {
  malloc_ok : Z -> bool;
  realloc_ok : Z -> bool;
  fork_ok : nat -> bool;
}.

(** [sizeof(int)] *)
Definition sizeof_int : Z := 4.

Inductive outcome := Exit (code : Z) | Undefined | OutOfFuel.

#[export] Instance outcome_eq_dec : EqDecision outcome.
Proof. solve_decision. Defined.

(** The variables of [main] during the interaction loop. *)
Record ctl := mkCtl {
  arr : pid_array;          (** [qty] and [pids] *)
  spec_counter : Z;
  selection : Z;
  inp : list Z;             (** the input not yet read *)
  out : list event;         (** what was printed or sent so far *)
  forks : nat;              (** how many [fork]s were called *)
}.

(** [scanf("%d", &x)] when [x] holds [old]. *)
Definition scan (inp : list Z) (old : Z) : Z * list Z :=
  match scanf_int inp with
  | (Some z, inp') => (z, inp')
  | (None, inp') => (old, inp')
  end.

(** Lines 26 to 38. [qty] is the current value of the variable. *)
Fixpoint qty_loop (fuel : nat) (qty : Z) (inp : list Z) (out : list event)
    : option (Z * list Z * list event) :=
  match fuel with
  | O => None
  | S f =>
      let out1 := out ++ [EvWelcome] in
      let '(q, inp1) := scan inp qty in
      if (5 <? q) || (q <? 0) then qty_loop f 0 inp1 (out1 ++ [EvWrongOption])
      else Some (q, inp1, out1)
  end.

(** Lines 40 to 53: allocate, then read the identifiers. *)
Definition startup (e : env) (q : Z) (inp : list Z) (out : list event)
    : ctl + (outcome * list event) :=
  if malloc_ok e (q * sizeof_int) then
    let '(cells, inp') := read_pids (Z.to_nat q) inp in
    inl (mkCtl (mkArray q cells) 0 0 inp' (out ++ [EvAskPids]) 0)
  else inr (Exit 1, out ++ [EvAllocFailed]).

(** Line 61 for [i] from [0] to [qty - 1]. *)
Definition print_entries (q : Z) (cells : list cell) : list event :=
  map (fun j => EvEntry (Z.of_nat j + 1) (default None (cells !! j))) (seq 0 (Z.to_nat q)).

(** The [switch] of lines 77 to 126: the signal of each action code. *)
Definition action_of (sel : Z) : option signal :=
  match sel with
  | 1 => Some SIGSTOP
  | 2 => Some SIGCONT
  | 3 => Some SIGUSR2
  | 4 => Some SIGUSR1
  | 5 => Some SIGKILL
  | _ => None
  end.

(** Line 75, [pids[spec_counter - 1]]: the 0-based index when it is within
    the array of [qty] elements. *)
Definition index_of (sc q : Z) : option nat :=
  if decide (1 <= sc <= q) then Some (Z.to_nat (sc - 1)) else None.

(** [if (fork() == 0) { kill(p, s); exit(1); }]: the child sends [s] to
    [p]; when [fork] fails nothing is sent and nothing is reported. *)
Definition dispatch (e : env) (n : nat) (s : signal) (p : cell) (out : list event)
    : list event * nat :=
  (if fork_ok e n then out ++ [EvSend s p] else out, S n).

(** One iteration of the loop of lines 56 to 127. *)
Definition interact_step (e : env) (c : ctl) : ctl + (outcome * list event) :=
  let a := arr c in
  let out1 := out c ++ EvAskInstance :: print_entries (qty a) (pids a) in
  let '(sc, inp1) := scan (inp c) (spec_counter c) in
  let out2 := out1 ++ [EvMenu] in
  let '(sel, inp2) := scan inp1 (selection c) in
  match index_of sc (qty a) with
  | None => inr (Undefined, out2)
  | Some k =>
      let p := default None (pids a !! k) in
      match action_of sel with
      | None => inl (mkCtl a sc sel inp2 out2 (forks c))
      | Some s =>
          let '(out3, n) := dispatch e (forks c) s p out2 in
          match s with
          | SIGKILL =>
              let a' := array_remove k a in
              if negb (realloc_ok e (qty a' * sizeof_int)) && (0 <? qty a')
              then inr (Exit 1, out3 ++ [EvReallocFailed])
              else inl (mkCtl a' sc sel inp2 out3 n)
          | _ => inl (mkCtl a sc sel inp2 out3 n)
          end
      end
  end.

(** Lines 56 and 127 to 133: [while (qty > 0)], then the goodbye. *)
Fixpoint interact_loop (e : env) (fuel : nat) (c : ctl) : outcome * list event :=
  if 0 <? qty (arr c) then
    match fuel with
    | O => (OutOfFuel, out c)
    | S f =>
        match interact_step e c with
        | inl c' => interact_loop e f c'
        | inr r => r
        end
    end
  else (Exit 0, out c ++ [EvGoodbye]).

(** One turn of [while (qty > 0)]: an iteration while entries remain,
    otherwise the goodbye and [return 0]. *)
Definition loop_turn (e : env) (c : ctl) : ctl + (outcome * list event) :=
  if 0 <? qty (arr c) then interact_step e c else inr (Exit 0, out c ++ [EvGoodbye]).

(** The whole of [main]. The first loop needs no fuel of its own: it ends
    within one iteration per number of input plus one. *)
Definition main (e : env) (fuel : nat) (inp : list Z) : outcome * list event :=
  match qty_loop (S (length inp)) 0 inp [] with
  | None => (OutOfFuel, [])
  | Some (q, inp1, out1) =>
      match startup e q inp1 out1 with
      | inl c => interact_loop e fuel c
      | inr r => r
      end
  end.

(** The environment of glibc on Linux: [malloc] succeeds (also for [0]
    bytes), [realloc(p, 0)] frees [p] and returns NULL, [fork] succeeds. *)
Definition glibc_env := mkEnv (fun _ => true) (fun sz => 0 <? sz) (fun _ => true).

(** A quantity the first loop rejects. *)
Definition out_of_range (z : Z) : Prop := z < 0 \/ 5 < z.

(** The signals sent, in order, in a list of events. *)
Definition sent (evs : list event) : list (signal * cell) :=
  omap (fun ev => match ev with EvSend s p => Some (s, p) | _ => None end) evs.

(** A controller about to read an index and an action. *)
Definition sample_ctl : ctl := mkCtl (mkArray 2 [Some 111; Some 222]) 0 0 [2; 5] [] 0.

(** ** Lemmas and theorems *)

Lemma interact_loop_turn e f c :
  interact_loop e (S f) c =
    match loop_turn e c with inl c' => interact_loop e f c' | inr r => r end.
Proof. unfold loop_turn. simpl. by destruct (0 <? qty (arr c)). Qed.

(** A turn of the loop ends the program only by [exit], [return] or
    undefined behaviour, never by running out of fuel. *)
Lemma loop_turn_not_out_of_fuel e c r : loop_turn e c = inr r -> fst r <> OutOfFuel.
Proof.
  unfold loop_turn, interact_step, dispatch. intros H.
  repeat (case_match; simplify_eq/=); done.
Qed.

Lemma qty_loop_gen fuel qty inp out :
  (length inp < fuel)%nat -> 0 <= qty <= 5 ->
  exists n q inp',
    qty_loop fuel qty inp out =
      Some (q, inp', out ++ concat (replicate n [EvWelcome; EvWrongOption]) ++ [EvWelcome]) /\
    0 <= q <= 5 /\ Forall out_of_range (take n inp) /\
    ((inp !! n = Some q /\ inp' = drop (S n) inp) \/ (length inp = n /\ q = (if n is O then qty else 0) /\ inp' = [])).
Proof.
  revert fuel qty out. induction inp as [|z r IH]; intros [|f] qty out Hf Hq; simpl in Hf; try lia.
  - exists O, qty, []. simpl.
    assert (E : (5 <? qty) || (qty <? 0) = false) by (apply orb_false_iff; split; apply Z.ltb_ge; lia).
    rewrite E. split_and!; first [done | lia | (right; split_and!; done)].
  - simpl. destruct ((5 <? z) || (z <? 0)) eqn:E.
    + destruct (IH f 0 (out ++ [EvWelcome] ++ [EvWrongOption])) as (n & q & inp' & Hrun & Hq' & Hall & Hend);
        [lia|lia|].
      exists (S n), q, inp'. rewrite app_assoc in Hrun. rewrite Hrun.
      split; [|split; [done|split]].
      * simpl. by rewrite <- !app_assoc.
      * simpl. constructor; [|done]. unfold out_of_range.
        apply orb_true_iff in E as [E|E]; apply Z.ltb_lt in E; lia.
      * destruct Hend as [[H1 H2]|(H1 & H2 & H3)]; [left|right]; simpl; split_and!; auto.
        by destruct n.
    + exists O, z, r. apply orb_false_iff in E as [E1 E2]. apply Z.ltb_ge in E1, E2.
      split_and!; try done; try lia. simpl. by left.
Qed.

(** C7: The quantity prompt loop always terminates within one iteration per
    input number plus one; it returns a quantity in [0, 5], namely the first
    input number in that range after skipping out-of-range numbers (each
    answered by the error message), or 0 when the input runs out. *)
Theorem qty_loop_spec inp out :
  exists n q inp',
    qty_loop (S (length inp)) 0 inp out =
      Some (q, inp', out ++ concat (replicate n [EvWelcome; EvWrongOption]) ++ [EvWelcome]) /\
    0 <= q <= 5 /\ Forall out_of_range (take n inp) /\
    ((inp !! n = Some q /\ inp' = drop (S n) inp) \/ (length inp = n /\ q = 0 /\ inp' = [])).
Proof.
  destruct (qty_loop_gen (S (length inp)) 0 inp out) as (n & q & inp' & H1 & H2 & H3 & H4); [lia|lia|].
  exists n, q, inp'. split; [done|split; [done|split; [done|]]].
  destruct H4 as [?|(? & ? & ?)]; [by left|right]. subst. split_and!; try done; by case_match.
Qed.

Lemma scan_cons z r old : scan (z :: r) old = (z, r).
Proof. reflexivity. Qed.

Lemma index_of_in k q : 1 <= k <= q -> index_of k q = Some (Z.to_nat (k - 1)).
Proof. intros H. unfold index_of. by case_decide. Qed.

Lemma index_of_Some sc q k : index_of sc q = Some k -> 1 <= sc <= q /\ k = Z.to_nat (sc - 1).
Proof. unfold index_of. case_decide; [by intros [= <-]|done]. Qed.

(** C1: On a kill command for an index k within the array, one iteration of
    the interaction loop removes entry k (1-based) with the compaction loop
    and realloc, decrements qty, forks a child that sends SIGKILL to the
    entry's pid (nothing is sent when fork fails), and prints the list and
    the menu. *)
Theorem interact_step_kill e c k rest :
  1 <= k <= qty (arr c) -> inp c = k :: 5 :: rest ->
  (qty (arr c) = 1 \/ realloc_ok e ((qty (arr c) - 1) * sizeof_int) = true) ->
  interact_step e c =
    inl (mkCtl (array_remove (Z.to_nat (k - 1)) (arr c)) k 5 rest
      (out c ++ EvAskInstance :: print_entries (qty (arr c)) (pids (arr c)) ++ [EvMenu] ++
        (if fork_ok e (forks c)
         then [EvSend SIGKILL (default None (pids (arr c) !! Z.to_nat (k - 1)))] else []))
      (S (forks c))).
Proof.
  intros Hk Hinp Hre. unfold interact_step. rewrite Hinp, !scan_cons, index_of_in by done.
  cbn -[print_entries array_remove].
  replace (negb (realloc_ok e (qty (array_remove (Z.to_nat (k - 1)) (arr c)) * sizeof_int))
           && (0 <? qty (array_remove (Z.to_nat (k - 1)) (arr c)))) with false.
  2: { cbn [array_remove qty]. destruct Hre as [-> | ->]; [by rewrite andb_false_r|done]. }
  destruct (fork_ok e (forks c)); by rewrite <- ?app_assoc.
Qed.

(** C19: On a stop, continue, direction or reset command for an index within
    the array, one iteration forks a child that sends SIGSTOP, SIGCONT,
    SIGUSR2 or SIGUSR1 to that entry's pid and leaves the array unchanged. *)
Theorem interact_step_signal e c k sel rest s :
  1 <= k <= qty (arr c) -> inp c = k :: sel :: rest -> action_of sel = Some s -> s <> SIGKILL ->
  interact_step e c =
    inl (mkCtl (arr c) k sel rest
      (out c ++ EvAskInstance :: print_entries (qty (arr c)) (pids (arr c)) ++ [EvMenu] ++
        (if fork_ok e (forks c)
         then [EvSend s (default None (pids (arr c) !! Z.to_nat (k - 1)))] else []))
      (S (forks c))).
Proof.
  intros Hk Hinp Hs Hne. unfold interact_step. rewrite Hinp, !scan_cons, index_of_in, Hs by done.
  cbn -[print_entries].
  destruct s; try congruence; destruct (fork_ok e (forks c)); by rewrite <- ?app_assoc.
Qed.

(** C31: An action code outside 1..5 with a valid index is silently ignored:
    nothing is forked or sent and the array is unchanged. *)
Theorem interact_step_ignored e c k sel rest :
  1 <= k <= qty (arr c) -> inp c = k :: sel :: rest -> action_of sel = None ->
  interact_step e c =
    inl (mkCtl (arr c) k sel rest
      (out c ++ EvAskInstance :: print_entries (qty (arr c)) (pids (arr c)) ++ [EvMenu]) (forks c)).
Proof.
  intros Hk Hinp Hs. unfold interact_step. rewrite Hinp, !scan_cons, index_of_in, Hs by done.
  cbn -[print_entries]. by rewrite <- app_assoc.
Qed.

(** C20: An index outside 1..qty makes the read pids[spec_counter - 1] of
    line 75 undefined behaviour, whatever action code follows, including an
    invalid one. *)
Theorem interact_step_bad_index e c k sel rest :
  inp c = k :: sel :: rest -> ~ (1 <= k <= qty (arr c)) ->
  interact_step e c =
    inr (Undefined, out c ++ EvAskInstance :: print_entries (qty (arr c)) (pids (arr c)) ++ [EvMenu]).
Proof.
  intros Hinp Hk. unfold interact_step. rewrite Hinp, !scan_cons.
  unfold index_of. case_decide; [done|]. cbn -[print_entries]. by rewrite <- app_assoc.
Qed.

(** C5: Every iteration of the interaction loop that continues keeps the
    array well formed (qty equals its length), keeps qty between 0 and its
    previous value, and changes the entries as the abstract registry does:
    not at all, or by removing one entry within range. *)
Theorem interact_step_refines e c c' :
  array_wf (arr c) -> interact_step e c = inl c' ->
  array_wf (arr c') /\ 0 <= qty (arr c') <= qty (arr c) /\
  (entries (arr c') = entries (arr c) \/
   exists k, (k < length (entries (arr c)))%nat /\ entries (arr c') = remove_entry k (entries (arr c))).
Proof.
  intros Hwf Hstep. unfold interact_step in Hstep.
  destruct (scan (inp c) (spec_counter c)) as [sc inp1].
  destruct (scan inp1 (selection c)) as [sel inp2].
  destruct (index_of sc (qty (arr c))) as [k|] eqn:Ei; [|done].
  apply index_of_Some in Ei as [Hsc ->].
  assert (Hk : (Z.to_nat (sc - 1) < length (pids (arr c)))%nat) by (unfold array_wf in Hwf; lia).
  destruct (action_of sel) as [s|]; [|injection Hstep as <-; simpl; split_and!; auto; lia].
  destruct (dispatch e (forks c) s _ _) as [out3 n].
  destruct s; try (injection Hstep as <-; simpl; split_and!; auto; lia).
  destruct (_ && _); [done|]. injection Hstep as <-. simpl. split_and!.
  - by apply array_remove_wf.
  - unfold array_wf in Hwf. lia.
  - lia.
  - right. exists (Z.to_nat (sc - 1)). split; [done|].
    exact (remove_entry_spec (R := pid_array) _ (arr c) Hk).
Qed.


Lemma sent_print_entries q cells : sent (print_entries q cells) = [].
Proof. unfold print_entries. match goal with |- context [seq ?a ?b] => induction (seq a b) end; simpl; auto. Qed.

Lemma sent_app l1 l2 : sent (l1 ++ l2) = sent l1 ++ sent l2.
Proof. apply omap_app. Qed.

Lemma kill_entry_first {A} (p : A) ps : kill_entry 0 (p :: ps) = ps.
Proof. rewrite kill_entry_remove_nth by (simpl; lia). reflexivity. Qed.

Lemma step_kill_first e q (p : cell) ps sc sel rest out0 nf :
  q = Z.of_nat (S (length ps)) -> fork_ok e nf = true ->
  (forall sz, 0 < sz -> realloc_ok e sz = true) ->
  interact_step e (mkCtl (mkArray q (p :: ps)) sc sel (1 :: 5 :: rest) out0 nf) =
    inl (mkCtl (mkArray (q - 1) ps) 1 5 rest
          (out0 ++ EvAskInstance :: print_entries q (p :: ps) ++ [EvMenu; EvSend SIGKILL p]) (S nf)).
Proof.
  intros Hq Hf Hre. unfold interact_step. cbn [arr inp spec_counter selection out forks qty pids].
  rewrite !scan_cons, index_of_in by lia. cbn -[print_entries array_remove].
  rewrite Hf. unfold array_remove. cbn [qty pids]. rewrite kill_entry_first.
  replace (negb (realloc_ok e ((q - 1) * sizeof_int)) && (0 <? q - 1)) with false.
  - rewrite <- !app_assoc. reflexivity.
  - destruct (decide (q - 1 = 0)) as [->|Hne]; [by rewrite andb_false_r|].
    rewrite Hre; [done|]. unfold sizeof_int. lia.
Qed.

(** C29: Killing entry 1 as many times as there are entries empties the
    registry: the loop exits with status 0 after printing the goodbye,
    having sent exactly one SIGKILL to each identifier in display order. *)
Theorem kill_first_until_empty e c :
  array_wf (arr c) -> (forall n, fork_ok e n = true) ->
  (forall sz, 0 < sz -> realloc_ok e sz = true) ->
  inp c = concat (replicate (length (pids (arr c))) [1; 5]) ->
  exists evs, interact_loop e (length (pids (arr c))) c = (Exit 0, out c ++ evs) /\
    sent evs = map (pair SIGKILL) (pids (arr c)) /\ last evs = Some EvGoodbye.
Proof.
  intros Hwf Hfork Hre. destruct c as [[q ps] sc sel inp0 out0 nf]; unfold array_wf in Hwf.
  cbn [arr pids qty inp out] in *.
  revert q sc sel inp0 out0 nf Hwf. induction ps as [|p ps IH]; intros q sc sel inp0 out0 nf Hwf Hinp.
  - simpl in *. subst q. exists [EvGoodbye]. simpl. split_and!; done.
  - cbn [length] in Hwf, Hinp |- *. subst inp0. cbn [replicate concat app].
    cbn [interact_loop arr qty]. rewrite (proj2 (Z.ltb_lt 0 q)) by lia.
    rewrite step_kill_first by done.
    destruct (IH (q - 1) 1 5 (concat (replicate (length ps) [1; 5]))
                (out0 ++ EvAskInstance :: print_entries q (p :: ps) ++ [EvMenu; EvSend SIGKILL p]) (S nf))
      as (evs & Hrun & Hsent & Hlast); [lia|done|].
    rewrite Hrun. eexists. split; [by rewrite <- app_assoc|]. split.
    + change (EvAskInstance :: ?l) with ([EvAskInstance] ++ l).
      rewrite !sent_app, sent_print_entries, Hsent. done.
    + rewrite last_app, Hlast. done.
Qed.

(** C30: Once the input is exhausted every scanf keeps the previous index
    and action, so a non-kill command with a valid index is repeated
    forever: the loop never terminates. *)
Theorem eof_repeats_last_command e c s fuel :
  inp c = [] -> 1 <= spec_counter c <= qty (arr c) ->
  action_of (selection c) = Some s -> s <> SIGKILL ->
  fst (interact_loop e fuel c) = OutOfFuel.
Proof.
  revert c. induction fuel as [|f IH]; intros c Hinp Hk Hs Hne; cbn [interact_loop].
  - by rewrite (proj2 (Z.ltb_lt 0 _)) by lia.
  - rewrite (proj2 (Z.ltb_lt 0 _)) by lia.
    unfold interact_step. rewrite Hinp. cbn [scan scanf_int]. rewrite index_of_in, Hs by done.
    cbn [dispatch]. destruct s; try congruence; apply IH; done.
Qed.

(** C22: After a valid quantity q and a successful malloc, startup reads q
    identifiers into an array of size q in input order and starts the
    interaction loop on the rest of the input. *)
Theorem startup_spec e q ids rest out0 :
  0 <= q -> length ids = Z.to_nat q -> malloc_ok e (q * sizeof_int) = true ->
  startup e q (ids ++ rest) out0 =
    inl (mkCtl (mkArray q (map Some ids)) 0 0 rest (out0 ++ [EvAskPids]) 0).
Proof.
  intros Hq Hlen Hm. unfold startup, read_pids. rewrite Hm.
  rewrite read_loop_spec by (rewrite length_replicate; lia).
  rewrite <- Hlen, take_app_length, drop_app_length, drop_replicate, Nat.add_0_l, Nat.sub_diag.
  by rewrite take_0, !app_nil_r.
Qed.

(** C23: With quantity 0 the program prints the goodbye and exits with
    status 0 without any menu when malloc(0) returns a pointer, but reports
    an allocation failure and exits with status 1 when malloc(0) returns
    NULL, which C allows. *)
Theorem main_qty_zero e fuel rest :
  main e fuel (0 :: rest) =
    if malloc_ok e 0 then (Exit 0, [EvWelcome; EvAskPids; EvGoodbye])
    else (Exit 1, [EvWelcome; EvAllocFailed]).
Proof.
  unfold main. cbn -[startup]. unfold startup. change (0 * sizeof_int) with 0.
  destruct (malloc_ok e 0), fuel; reflexivity.
Qed.

(** The end-to-end scenarios: with identifiers 111 and 222, toggling
    entry 1 sends SIGUSR2 to 111 and keeps the list, killing entry 2 sends
    SIGKILL to 222 and leaves [111], killing entry 1 empties the list and
    the program prints the goodbye and exits with status 0. *)
Theorem main_scenarios fuel :
  (3 <= fuel)%nat ->
  main glibc_env fuel [2; 111; 222; 1; 3; 2; 5; 1; 5] =
    (Exit 0,
     [EvWelcome; EvAskPids;
      EvAskInstance; EvEntry 1 (Some 111); EvEntry 2 (Some 222); EvMenu; EvSend SIGUSR2 (Some 111);
      EvAskInstance; EvEntry 1 (Some 111); EvEntry 2 (Some 222); EvMenu; EvSend SIGKILL (Some 222);
      EvAskInstance; EvEntry 1 (Some 111); EvMenu; EvSend SIGKILL (Some 111);
      EvGoodbye]).
Proof. intros H. do 3 (destruct fuel as [|fuel]; [lia|]). destruct fuel; reflexivity. Qed.

(** With three identifiers and the single command kill entry 3 before
    the input ends, the repeated command indexes past the shrunken array:
    the run ends in undefined behaviour. *)
Theorem eof_after_kill_undefined fuel :
  (2 <= fuel)%nat -> fst (main glibc_env fuel [3; 11; 22; 33; 3; 5]) = Undefined.
Proof. intros H. do 2 (destruct fuel as [|fuel]; [lia|]). reflexivity. Qed.

(** ** Witnesses *)

Lemma interact_step_kill_witness :
  exists c', interact_step glibc_env sample_ctl = inl c' /\ pids (arr c') = [Some 111].
Proof.
  eexists. split; [apply (interact_step_kill glibc_env sample_ctl 2 []); simpl; lia || auto|].
  reflexivity.
Defined.

Lemma interact_step_signal_witness :
  exists c', interact_step glibc_env (mkCtl (mkArray 2 [Some 111; Some 222]) 0 0 [1; 3] [] 0) = inl c' /\
    pids (arr c') = [Some 111; Some 222] /\ sent (out c') = [(SIGUSR2, Some 111)].
Proof.
  eexists. split; [apply (interact_step_signal glibc_env _ 1 3 [] SIGUSR2); simpl; try lia; done|].
  split; reflexivity.
Defined.

Lemma interact_step_ignored_witness :
  exists c', interact_step glibc_env (mkCtl (mkArray 2 [Some 111; Some 222]) 0 0 [1; 9] [] 0) = inl c' /\
    sent (out c') = [].
Proof.
  eexists. split; [apply (interact_step_ignored glibc_env _ 1 9 []); simpl; try lia; done|].
  reflexivity.
Defined.

Lemma interact_step_bad_index_witness :
  exists evs, interact_step glibc_env (mkCtl (mkArray 2 [Some 111; Some 222]) 0 0 [3; 9] [] 0) =
    inr (Undefined, evs).
Proof. eexists. apply (interact_step_bad_index glibc_env _ 3 9 []); simpl; [done|lia]. Defined.

Lemma interact_step_refines_witness :
  exists c', interact_step glibc_env sample_ctl = inl c' /\ array_wf (arr c') /\ qty (arr c') = 1.
Proof.
  assert (Hwf : array_wf (arr sample_ctl)) by reflexivity.
  destruct (interact_step glibc_env sample_ctl) as [c'|r] eqn:E; [|discriminate].
  exists c'. split; [done|]. split; [exact (proj1 (interact_step_refines _ _ _ Hwf E))|].
  by injection E as <-.
Defined.

Lemma kill_first_until_empty_witness :
  exists evs, interact_loop glibc_env 2 (mkCtl (mkArray 2 [Some 111; Some 222]) 0 0 [1; 5; 1; 5] [] 0) =
    (Exit 0, [] ++ evs) /\ sent evs = [(SIGKILL, Some 111); (SIGKILL, Some 222)].
Proof.
  destruct (kill_first_until_empty glibc_env (mkCtl (mkArray 2 [Some 111; Some 222]) 0 0 [1; 5; 1; 5] [] 0))
    as (evs & H1 & H2 & _); [reflexivity|reflexivity|intros sz Hsz; by apply Z.ltb_lt|reflexivity|].
  exists evs. split; [exact H1|exact H2].
Defined.

Lemma eof_repeats_last_command_witness :
  fst (interact_loop glibc_env 7 (mkCtl (mkArray 2 [Some 11; Some 22]) 1 3 [] [] 0)) = OutOfFuel.
Proof. apply (eof_repeats_last_command glibc_env _ SIGUSR2 7); simpl; try lia; done. Defined.

Lemma startup_spec_witness :
  startup glibc_env 2 ([111; 222] ++ [1; 3]) [] =
    inl (mkCtl (mkArray 2 (map Some [111; 222])) 0 0 [1; 3] ([] ++ [EvAskPids]) 0).
Proof. apply startup_spec; [lia|reflexivity|reflexivity]. Defined.

Lemma main_scenarios_witness :
  fst (main glibc_env 3 [2; 111; 222; 1; 3; 2; 5; 1; 5]) = Exit 0.
Proof. rewrite (main_scenarios 3); [reflexivity|lia]. Defined.

Lemma eof_after_kill_undefined_witness :
  fst (main glibc_env 2 [3; 11; 22; 33; 3; 5]) = Undefined.
Proof. apply (eof_after_kill_undefined 2). lia. Defined.

End Controller.
