(* ===== verification/ControllerRuns.v ===== *)
(** * ControllerRuns: the runs of handler.c's [main]

    A run of the interaction loop is a sequence of turns
    ([Controller.loop_turn]); [ctl_turn] is that relation.
    [Controller.interact_loop] runs it with fuel, and the first group of
    lemmas shows the fuel is only a bound ([interact_loop_equiv]): the
    fuelled loop and the relation give the same ends, and more fuel does
    not change a finished run.

    The model of [main] keeps its variables as [Z]. In C they are [int]:
    [qty], [spec_counter], [selection] and the cells of [pids]. They only
    receive what [scanf("%d")] stores (an [int] of the input), the
    constants [0] and [1], [qty--] under [qty > 0], and the moves of the
    compaction loop. [typed] states that every such variable is an [int]
    and that the input not yet read is made of [int]s; it holds at the
    start of the interaction loop and every turn keeps it, so along every
    run of [main] on [int] input no variable leaves the range of [int]
    ([main_typed]). *)

From Stdlib Require Import ZArith Lia.
From stdpp Require Import base list options relations.
From S2P Require Import Prelude Signals Registry Controller.

Local Open Scope Z_scope.

Module ControllerRuns.
Import Registry Controller.

(** ** Runs of the interaction loop *)

(** The controller's own runs: turns of its loop, nothing else. *)
Inductive ctl_turn (e : env) : ctl + (outcome * list event) -> ctl + (outcome * list event) -> Prop :=
  | ctl_turn_step c : ctl_turn e (inl c) (loop_turn e c).

(** ** The variables hold ints *)

Definition int_val (z : Z) : Prop := CInt.in_int z = true.

(** A cell holds an [int]: one that [scanf] stored, or the indeterminate
    [int] that [malloc] returned. *)
Definition int_cell (c : cell) : Prop :=
  match c with Some z => int_val z | None => True end.

Definition typed (c : ctl) : Prop :=
  int_val (qty (arr c)) /\ 0 <= qty (arr c) /\ int_val (spec_counter c) /\
  int_val (selection c) /\ Forall int_cell (pids (arr c)) /\ Forall int_val (inp c).

#[export] Instance int_cell_dec c : Decision (int_cell c).
Proof. destruct c; unfold int_cell, int_val; apply _. Defined.

#[export] Instance typed_dec c : Decision (typed c).
Proof. unfold typed, int_val. apply _. Defined.

(** The states of the interaction loop a run of [main] on [inp] reaches:
    the quantity loop, [startup], then turns of the loop. *)
Definition main_reaches (e : env) (inp : list Z) (c : ctl) : Prop :=
  exists q inp1 out1 c0,
    qty_loop (S (length inp)) 0 inp [] = Some (q, inp1, out1) /\
    startup e q inp1 out1 = inl c0 /\
    rtc (fun c c' => loop_turn e c = inl c') c0 c.

(** ** Lemmas *)

Section Runs.
Variable e : env.


(** A finished run has no further turn, and the relation of turns is
    deterministic. *)
Lemma ctl_turn_final r y : rtc (ctl_turn e) (inr r) y -> y = inr r.
Proof. intros H. inversion H as [|? ? ? Hs]; [done|]. inversion Hs. Qed.

Lemma rtc_ctl_turn_deterministic x r1 r2 :
  rtc (ctl_turn e) x (inr r1) -> rtc (ctl_turn e) x (inr r2) -> r1 = r2.
Proof.
  intros H1. remember (inr r1) as y eqn:Ey. revert r2. induction H1 as [x|x y' z Hs Hr IH]; intros r2 H2; subst.
  - apply ctl_turn_final in H2. by injection H2.
  - inversion H2 as [|? y'' ? Hs2 Hr2]; subst; [inversion Hs|].
    inversion Hs; subst. inversion Hs2; subst. by apply IH.
Qed.

Lemma interact_loop_rtc fuel c :
  fst (interact_loop e fuel c) <> OutOfFuel -> rtc (ctl_turn e) (inl c) (inr (interact_loop e fuel c)).
Proof.
  revert c. induction fuel as [|f IH]; intros c H.
  - apply rtc_once. cbn [interact_loop] in *. destruct (0 <? qty (arr c)) eqn:E; [done|].
    replace (inr _) with (loop_turn e c) by (unfold loop_turn; by rewrite E). constructor.
  - rewrite interact_loop_turn in *. destruct (loop_turn e c) as [c'|r] eqn:E.
    + apply (rtc_l _ _ (inl c')); [rewrite <- E; constructor|]. by apply IH.
    + apply rtc_once. rewrite <- E. constructor.
Qed.

Lemma rtc_interact_loop c r :
  rtc (ctl_turn e) (inl c) (inr r) -> exists fuel, interact_loop e fuel c = r /\ fst r <> OutOfFuel.
Proof.
  intros H. remember (inl c) as x eqn:Ex. remember (inr r) as y eqn:Ey.
  revert c Ex. induction H as [x|x y' z Hs Hr IH]; intros c Ex; subst; [done|].
  inversion Hs as [c0]; subst. destruct (loop_turn e c) as [c'|r'] eqn:E.
  - destruct (IH eq_refl c' eq_refl) as (f & Hf & Ho). exists (S f). by rewrite interact_loop_turn, E.
  - apply ctl_turn_final in Hr. injection Hr as ->. exists 1%nat.
    rewrite interact_loop_turn, E. split; [done|]. by apply (loop_turn_not_out_of_fuel e c).
Qed.

(** The fuel of the interaction loop is only a bound: the loop run with
    some fuel ends with an outcome other than running out of it exactly when
    the relation of its turns leads from the state to that end, and then any
    larger fuel gives the same result. *)
Theorem interact_loop_equiv c r :
  (exists fuel, interact_loop e fuel c = r /\ fst r <> OutOfFuel) <->
  rtc (ctl_turn e) (inl c) (inr r) /\
  (forall fuel, fst (interact_loop e fuel c) <> OutOfFuel -> interact_loop e fuel c = r).
Proof.
  split.
  - intros (fuel & <- & H). split; [by apply interact_loop_rtc|].
    intros fuel' H'. apply interact_loop_rtc in H, H'.
    eapply (rtc_ctl_turn_deterministic (inl c)); eauto.
  - intros [H _]. by apply rtc_interact_loop.
Qed.

End Runs.


Lemma int_val_range z : int_val z <-> CInt.INT_MIN <= z <= CInt.INT_MAX.
Proof. apply CInt.in_int_spec. Qed.

Lemma int_val_small z : 0 <= z <= 5 -> int_val z.
Proof. intros H. apply int_val_range. unfold CInt.INT_MIN, CInt.INT_MAX. lia. Qed.

Lemma scan_typed inp old :
  Forall int_val inp -> int_val old ->
  int_val (fst (scan inp old)) /\ Forall int_val (snd (scan inp old)).
Proof. intros Hi Ho. destruct inp as [|z r]; [done|]. by apply Forall_cons in Hi. Qed.

Lemma read_loop_typed i cnt l inp :
  Forall int_cell l -> Forall int_val inp ->
  Forall int_cell (fst (read_loop i cnt l inp)) /\ Forall int_val (snd (read_loop i cnt l inp)).
Proof.
  revert i l inp. induction cnt as [|c IH]; intros i l inp Hl Hi; [done|].
  destruct inp as [|z r]; simpl; [by apply IH|].
  apply Forall_cons in Hi as [Hz Hr]. apply IH; [|done].
  by apply Forall_insert.
Qed.

(** Every turn of the interaction loop keeps the variables [int]s: the
    two [scanf]s store input [int]s, and the kill case runs [qty--] only
    when [1 <= spec_counter <= qty]. *)
Lemma loop_turn_typed e c c' : typed c -> loop_turn e c = inl c' -> typed c'.
Proof.
  unfold loop_turn. destruct (Z.ltb_spec 0 (qty (arr c))) as [Hq|]; [|done].
  intros (Hqi & Hq0 & Hsc & Hsel & Hcells & Hinp). unfold interact_step.
  destruct (scan_typed _ _ Hinp Hsc) as [Hsc' Hinp1].
  destruct (scan (inp c) (spec_counter c)) as [sc inp1]. cbn [fst snd] in Hsc', Hinp1.
  destruct (scan_typed _ _ Hinp1 Hsel) as [Hsel' Hinp2].
  destruct (scan inp1 (selection c)) as [sel inp2]. cbn [fst snd] in Hsel', Hinp2.
  destruct (index_of sc (qty (arr c))) as [k|] eqn:Ei; [|done].
  apply index_of_Some in Ei as [Hk ->].
  destruct (action_of sel) as [s|]; [|intros [= <-]; by split_and!].
  destruct (dispatch e (forks c) s _ _) as [out3 n].
  destruct s; try (intros [= <-]; by split_and!).
  cbv zeta. case_match; [done|]. intros [= <-].
  unfold typed; cbn [arr qty pids array_remove spec_counter selection inp]. split_and!; try done.
  - apply int_val_range. apply int_val_range in Hqi. unfold CInt.INT_MIN in *. lia.
  - lia.
  - by apply Forall_kill_entry.
Qed.

(** The interaction loop starts with [int]s: [qty] in [0, 5] from the
    first loop, zeros, and cells from the input or left indeterminate. *)
Lemma start_typed e inp q inp1 out1 c0 :
  Forall int_val inp ->
  qty_loop (S (length inp)) 0 inp [] = Some (q, inp1, out1) ->
  startup e q inp1 out1 = inl c0 -> typed c0.
Proof.
  intros Hinp Hq Hs.
  destruct (qty_loop_gen (S (length inp)) 0 inp []) as (n & q' & inp' & Hrun & Hq' & _ & Hend); [lia|lia|].
  rewrite Hrun in Hq. injection Hq as <- <- <-.
  assert (Hinp' : Forall int_val inp').
  { destruct Hend as [[_ ->]|(_ & _ & ->)]; [by apply Forall_drop|done]. }
  unfold startup, read_pids in Hs. destruct (malloc_ok e (q' * sizeof_int)); [|done].
  destruct (read_loop_typed 0 (Z.to_nat q') (replicate (Z.to_nat q') None) inp') as [Hc Hi];
    [by apply Forall_replicate|done|].
  destruct (read_loop 0 (Z.to_nat q') _ inp') as [cells inp'']. injection Hs as <-.
  unfold typed; cbn [arr qty pids spec_counter selection Controller.inp]. split_and!; try done; try apply int_val_small; lia.
Qed.

(** ** Theorem *)

(** C12: On input made of ints, in every state of the interaction loop a run
    of main reaches, qty, spec_counter, selection and every cell of pids
    hold ints and qty is not negative: no variable of main leaves the range
    of int. *)
Theorem main_typed e inp c : Forall int_val inp -> main_reaches e inp c -> typed c.
Proof.
  intros Hinp (q & inp1 & out1 & c0 & Hq & Hs & Hr).
  assert (H0 : typed c0) by (eapply start_typed; eauto).
  clear Hq Hs. induction Hr; eauto using loop_turn_typed.
Qed.

(** ** Witness *)

Lemma main_typed_witness :
  typed (mkCtl (mkArray 1 [Some 7]) 1 3 [] [EvWelcome; EvAskPids; EvAskInstance; EvEntry 1 (Some 7);
                                           EvMenu; EvSend SIGUSR2 (Some 7)] 1).
Proof.
  apply (main_typed glibc_env [1; 7; 1; 3]).
  - repeat constructor.
  - exists 1, [7; 1; 3], [EvWelcome], (mkCtl (mkArray 1 [Some 7]) 0 0 [1; 3] [EvWelcome; EvAskPids] 0).
    split_and!; [reflexivity|reflexivity|]. apply rtc_once. reflexivity.
Defined.

Lemma interact_loop_equiv_witness :
  let c := mkCtl (mkArray 1 [Some 7]) 0 0 [1; 5] [] 0 in
  rtc (ctl_turn glibc_env) (inl c) (inr (interact_loop glibc_env 2 c)) /\
  interact_loop glibc_env 5 c = interact_loop glibc_env 2 c.
Proof.
  intros c.
  destruct (proj1 (interact_loop_equiv glibc_env c (interact_loop glibc_env 2 c)))
    as [H1 H2]; [exists 2%nat; split; [reflexivity|vm_compute; discriminate]|].
  split; [exact H1|]. apply H2. vm_compute. discriminate.
Defined.

End ControllerRuns.
