(* ===== verification/Console.v ===== *)
(** * Console: the text the two programs print and read

    counter.c prints one line per iteration with
    [printf("current count is '%d' : %d\n", i, getpid())] (line 34);
    handler.c prints fixed prompts, the entries with [printf("%d) %d\n",
    i + 1, pids[i])] (line 61), and reads every number with
    [scanf("%d", ...)] (lines 31, 52, 63 and 74).

    This file gives those texts as strings: [fmt_d] is the conversion
    [%d] of [printf] (an optional minus sign and the decimal digits of the
    absolute value, through the Standard Library's [Decimal] numbers);
    [read_d] reads such a number back; [count_line] is the counter's line
    and [parse_counter_text] recovers the values and pids from the
    counter's whole output; [stdout_of] is the text of each [event] of the
    controller; [scanf_d] is [scanf("%d")] on the text of standard input,
    which skips white space and reads an optionally signed decimal number,
    and whose number of the wrong range is undefined behaviour. *)

From Stdlib Require Import ZArith Lia Ascii DecimalN DecimalPos DecimalString.
From stdpp Require Import base list options strings.
From S2P Require Import Prelude Registry Controller.

Local Open Scope Z_scope.

Module Console.
Import Registry Controller.

Definition nl : string := String "010"%char EmptyString.

(** ** [printf]'s [%d] *)

Definition fmt_u (n : N) : string := NilEmpty.string_of_uint (N.to_uint n).

Definition fmt_d (z : Z) : string :=
  (if z <? 0 then "-" else "") +:+ fmt_u (Z.abs_N z).

(** ** Reading a printed number back *)

Definition digit (c : ascii) : option (Decimal.uint -> Decimal.uint) :=
  match c with
  | "0" => Some Decimal.D0 | "1" => Some Decimal.D1 | "2" => Some Decimal.D2
  | "3" => Some Decimal.D3 | "4" => Some Decimal.D4 | "5" => Some Decimal.D5
  | "6" => Some Decimal.D6 | "7" => Some Decimal.D7 | "8" => Some Decimal.D8
  | "9" => Some Decimal.D9 | _ => None
  end%char.

(** The longest prefix of decimal digits and the rest. *)
Fixpoint span_digits (s : string) : Decimal.uint * string :=
  match s with
  | EmptyString => (Decimal.Nil, EmptyString)
  | String c s' =>
      match digit c with
      | Some d => let '(u, r) := span_digits s' in (d u, r)
      | None => (Decimal.Nil, s)
      end
  end.

(** Does the text start with a digit? *)
Definition digit_first (s : string) : bool :=
  match s with String c _ => bool_decide (is_Some (digit c)) | EmptyString => false end.

Definition read_u (s : string) : option (N * string) :=
  match span_digits s with
  | (Decimal.Nil, _) => None
  | (u, r) => Some (N.of_uint u, r)
  end.

Definition read_d (s : string) : option (Z * string) :=
  match s with
  | String "-"%char s' => (fun '(n, r) => (- Z.of_N n, r)) <$> read_u s'
  | _ => (fun '(n, r) => (Z.of_N n, r)) <$> read_u s
  end.

(** [pre] at the start of [s], and what follows it. *)
Fixpoint strip (pre s : string) : option string :=
  match pre, s with
  | EmptyString, _ => Some s
  | String a p, String b s' => if decide (a = b) then strip p s' else None
  | String _ _, EmptyString => None
  end.

(** ** The counter's output (counter.c, line 34) *)

Definition count_prefix : string := "current count is '".
Definition count_mid : string := "' : ".

Definition count_line (v pid : Z) : string :=
  count_prefix +:+ fmt_d v +:+ count_mid +:+ fmt_d pid +:+ nl.

(** ** Texts made of lines, and reading them back *)

Section Lines.
Context {A : Type} (render : A -> string) (parse_one : string -> option (A * string)).

Definition print_all (xs : list A) : string :=
  foldr (fun x acc => render x +:+ acc) EmptyString xs.

(** Read lines until the text is exhausted. Each line read consumes at
    least one character, so the length of the text is enough fuel. *)
Fixpoint parse_many (fuel : nat) (s : string) : option (list A) :=
  match s with
  | EmptyString => Some []
  | _ =>
      match fuel with
      | O => None
      | S f => '(x, r) ← parse_one s; xs ← parse_many f r; Some (x :: xs)
      end
  end.

Definition parse_all (s : string) : option (list A) := parse_many (String.length s) s.
End Lines.

Definition parse_count_line (s : string) : option ((Z * Z) * string) :=
  s1 ← strip count_prefix s;
  '(v, s2) ← read_d s1;
  s3 ← strip count_mid s2;
  '(pid, s4) ← read_d s3;
  s5 ← strip nl s4;
  Some ((v, pid), s5).

(** The text of the lines [Counter.out] records, in order, and the
    reading of such a text. *)
Definition counter_text (lines : list (Z * Z)) : string :=
  print_all (fun '(v, pid) => count_line v pid) lines.

Definition parse_counter_text (s : string) : option (list (Z * Z)) :=
  parse_all parse_count_line s.

(** ** The text of the controller (handler.c)

    The adjacent string literals of each [printf] joined, as C joins them. *)

Definition welcome_text : string :=
  "Hello and welcome to the infinite counter handler, please indicate the amount (up to 5) of infinite counters you would like to have running: " +:+ nl.
Definition wrong_option_text : string := "You have input a wrong option please try again.".
Definition ask_pids_text : string :=
  "Please insert the PID of the programs you wish to handle separated by spaces: " +:+ nl.
Definition ask_instance_text : string :=
  "Select the instance of the infinite counter you wish to interact with: " +:+ nl.
Definition menu_text : string :=
  "Now select the function you wish to execute:" +:+ nl +:+ "1) Stop" +:+ nl +:+
  "2) Continue" +:+ nl +:+ "3) Change the counting direction" +:+ nl +:+
  "4) Reset counter" +:+ nl +:+ "5) Kill" +:+ nl.
Definition goodbye_text : string :=
  "No more Infinite counter programs found, exiting the program, Good bye.".

(** Line 61, [printf("%d) %d\n", i + 1, pids[i])]. *)
Definition entry_mid : string := ") ".
Definition entry_line (n p : Z) : string := fmt_d n +:+ entry_mid +:+ fmt_d p +:+ nl.

Definition parse_entry_line (s : string) : option ((Z * Z) * string) :=
  '(n, s1) ← read_d s;
  s2 ← strip entry_mid s1;
  '(p, s3) ← read_d s2;
  s4 ← strip nl s3;
  Some ((n, p), s4).

(** What an event writes on standard output. [perror] writes on standard
    error and a forked child writes nothing; an entry whose cell was never
    written prints an indeterminate [int], whose text is not determined. *)
Definition stdout_of (ev : event) : option string :=
  match ev with
  | EvWelcome => Some welcome_text
  | EvWrongOption => Some wrong_option_text
  | EvAllocFailed | EvReallocFailed | EvSend _ _ => Some EmptyString
  | EvAskPids => Some ask_pids_text
  | EvAskInstance => Some ask_instance_text
  | EvEntry n (Some p) => Some (entry_line n p)
  | EvEntry _ None => None
  | EvMenu => Some menu_text
  | EvGoodbye => Some goodbye_text
  end.

(** The entries of a registry with their 1-based numbers. *)
Definition numbered (ids : list Z) : list (Z * Z) := imap (fun j p => (Z.of_nat j + 1, p)) ids.

Definition stdout_text (evs : list event) : option string :=
  foldr (fun ev acc => t ← stdout_of ev; rest ← acc; Some (t +:+ rest)) (Some EmptyString) evs.

(** [perror(msg)] writes [msg], a colon, a space, the text of [errno] and
    a newline on standard error. *)
Definition stderr_of (strerror : string) (ev : event) : string :=
  match ev with
  | EvAllocFailed => "Failed to allocate memory: " +:+ strerror +:+ nl
  | EvReallocFailed => "Failed to reallocate memory: " +:+ strerror +:+ nl
  | _ => EmptyString
  end.

(** ** [scanf("%d", &x)] on the text of standard input *)

Fixpoint skip_ws (s : string) : string :=
  match s with
  | String c s' => if Ascii.is_space c then skip_ws s' else s
  | EmptyString => EmptyString
  end.

Definition split_sign (s : string) : bool * string :=
  match s with
  | String "-"%char s' => (true, s')
  | String "+"%char s' => (false, s')
  | _ => (false, s)
  end.

(** White space is skipped; at the end of the input [scanf] returns [EOF]
    and converts nothing; otherwise the input item is the longest prefix
    of an optionally signed number, which is consumed, and the number is
    stored when it has a digit. A number that is not an [int] is undefined
    behaviour, the result [None]. *)
Definition scan_number (s1 : string) : option (option Z * string) :=
  let '(neg, s2) := split_sign s1 in
  match read_u s2 with
  | None => Some (None, s2)
  | Some (n, r) =>
      let z := if neg then - Z.of_N n else Z.of_N n in
      if CInt.in_int z then Some (Some z, r) else None
  end.

Definition scanf_d (s : string) : option (option Z * string) :=
  match skip_ws s with
  | EmptyString => Some (None, EmptyString)
  | s1 => scan_number s1
  end.

(** Text made of white space only, and at least one character of it. *)
Fixpoint all_space (s : string) : bool :=
  match s with String c s' => Ascii.is_space c && all_space s' | EmptyString => true end.

Definition blank (sep : string) : bool := bool_decide (sep <> EmptyString) && all_space sep.

(** Input from which [scanf("%d")] never reads a number again: after white
    space, the end or a character that starts no number. *)
Definition stuck (s : string) : bool :=
  match skip_ws s with
  | EmptyString => true
  | String c _ => negb (bool_decide (is_Some (digit c))) && negb (bool_decide (c = "-"%char))
                  && negb (bool_decide (c = "+"%char))
  end.

(** The numbers [zs] typed with [sep] before each of them. *)
Definition input_text (sep : string) (zs : list Z) : string :=
  foldr (fun z acc => sep +:+ fmt_d z +:+ acc) EmptyString zs.

(** ** Lemmas on strings *)

Lemma str_app_nil s : EmptyString +:+ s = s.
Proof. done. Qed.

Lemma str_app_cons c s r : String c s +:+ r = String c (s +:+ r).
Proof. done. Qed.

Lemma str_app_nil_r s : s +:+ EmptyString = s.
Proof. induction s as [|c s IH]; [done|]. rewrite str_app_cons. by f_equal. Qed.

Lemma str_app_assoc s1 s2 s3 : (s1 +:+ s2) +:+ s3 = s1 +:+ (s2 +:+ s3).
Proof. induction s1 as [|c s1 IH]; [done|]. rewrite !str_app_cons. by f_equal. Qed.

Lemma str_length_app s r : String.length (s +:+ r) = (String.length s + String.length r)%nat.
Proof. induction s as [|c s IH]; [done|]. rewrite str_app_cons. simpl. by rewrite IH. Qed.

#[export] Hint Rewrite str_app_nil str_app_cons str_app_assoc : csem_rw.

Lemma strip_app pre s : strip pre (pre +:+ s) = Some s.
Proof.
  induction pre as [|c pre IH]; [by destruct s|]. rewrite str_app_cons. simpl.
  by rewrite decide_True.
Qed.

Lemma span_digits_no_digit r : digit_first r = false -> span_digits r = (Decimal.Nil, r).
Proof.
  destruct r as [|c r]; [done|]. simpl. intros H. apply bool_decide_eq_false in H.
  destruct (digit c); [naive_solver|done].
Qed.

Lemma span_digits_app u r :
  digit_first r = false -> span_digits (NilEmpty.string_of_uint u +:+ r) = (u, r).
Proof.
  intros Hr. induction u; cbn [NilEmpty.string_of_uint];
    rewrite ?str_app_cons, ?str_app_nil; simpl; rewrite ?IHu; auto using span_digits_no_digit.
Qed.

Lemma fmt_u_nonnil n : N.to_uint n <> Decimal.Nil.
Proof. destruct n as [|p]; [done|]. apply DecimalPos.Unsigned.to_uint_nonnil. Qed.

Lemma read_u_fmt n r : digit_first r = false -> read_u (fmt_u n +:+ r) = Some (n, r).
Proof.
  intros Hr. unfold read_u, fmt_u. rewrite span_digits_app by done.
  pose proof (fmt_u_nonnil n) as Hn. pose proof (DecimalN.Unsigned.of_to n) as Ho.
  destruct (N.to_uint n); [done|..]; by rewrite Ho.
Qed.

Lemma digit_first_fmt_u n r : digit_first (fmt_u n +:+ r) = true.
Proof.
  unfold fmt_u. pose proof (fmt_u_nonnil n) as Hn.
  destruct (N.to_uint n); [done|..]; cbn [NilEmpty.string_of_uint]; by rewrite str_app_cons.
Qed.

(** A text that starts with a digit is read as a number without sign. *)
Lemma read_d_digit s :
  digit_first s = true -> read_d s = (fun '(n, r) => (Z.of_N n, r)) <$> read_u s.
Proof. destruct s as [|c s]; [done|]. by destruct c as [[] [] [] [] [] [] [] []]. Qed.

(** What [%d] printed is read back as the same number, whatever follows
    it that is not a digit. *)
Lemma read_d_fmt_d z r : digit_first r = false -> read_d (fmt_d z +:+ r) = Some (z, r).
Proof.
  intros Hr. unfold fmt_d. destruct (Z.ltb_spec z 0) as [Hz|Hz].
  - rewrite str_app_assoc, str_app_cons, str_app_nil. cbn [read_d].
    rewrite read_u_fmt by done. simpl. rewrite N2Z.inj_abs_N. do 2 f_equal. lia.
  - rewrite str_app_nil, read_d_digit by apply digit_first_fmt_u.
    rewrite read_u_fmt by done. simpl. rewrite N2Z.inj_abs_N. do 2 f_equal. lia.
Qed.

(** Read a rendered line back field by field. *)
Ltac read_back :=
  repeat first [ rewrite strip_app | rewrite read_d_fmt_d by done
               | progress cbn -[strip read_d count_mid entry_mid nl] ].

Lemma parse_count_line_app v pid r :
  parse_count_line (count_line v pid +:+ r) = Some ((v, pid), r).
Proof.
  unfold parse_count_line, count_line. rewrite !str_app_assoc. by read_back.
Qed.

Lemma count_line_length v pid : (1 <= String.length (count_line v pid))%nat.
Proof. unfold count_line, count_prefix. rewrite str_length_app. simpl. lia. Qed.

Section LinesLemmas.
Local Set Default Proof Using "All".
Context {A : Type} (render : A -> string) (parse_one : string -> option (A * string)).
Hypothesis render_nonempty : forall x, (1 <= String.length (render x))%nat.
Hypothesis parse_render : forall x r, parse_one (render x +:+ r) = Some (x, r).

Lemma parse_many_S f s :
  s <> EmptyString ->
  parse_many parse_one (S f) s = '(x, r) ← parse_one s; xs ← parse_many parse_one f r; Some (x :: xs).
Proof. by destruct s. Qed.

Lemma parse_many_print_all fuel xs :
  (String.length (print_all render xs) <= fuel)%nat ->
  parse_many parse_one fuel (print_all render xs) = Some xs.
Proof.
  revert fuel. induction xs as [|x xs IH]; intros fuel Hf; [by destruct fuel|].
  cbn [print_all foldr] in *. fold (print_all render xs) in *. rewrite str_length_app in Hf.
  pose proof (render_nonempty x). destruct fuel as [|f]; [lia|].
  assert (Hne : render x +:+ print_all render xs <> EmptyString).
  { intros E. apply (f_equal String.length) in E. rewrite str_length_app in E.
    change (String.length EmptyString) with 0%nat in E. lia. }
  rewrite parse_many_S, parse_render by done.
  cbn -[parse_many]. by rewrite IH by lia.
Qed.

(** Texts made of rendered lines are read back to their lines. *)
Lemma parse_all_print_all xs : parse_all parse_one (print_all render xs) = Some xs.
Proof. by apply parse_many_print_all. Qed.
End LinesLemmas.

(** C14: The counter's output is unambiguous: the text of any sequence of
    lines printed by line 34 of counter.c, values and pids of any sign and
    size, is parsed back to exactly that sequence. *)
Theorem counter_text_roundtrip lines : parse_counter_text (counter_text lines) = Some lines.
Proof.
  apply parse_all_print_all.
  - intros [v pid]. apply count_line_length.
  - intros [v pid] r. apply parse_count_line_app.
Qed.

(** ** Lemmas on [scanf("%d")] *)

Lemma space_not_digit c : Ascii.is_space c = true -> digit c = None.
Proof. by destruct c as [[] [] [] [] [] [] [] []]. Qed.

Lemma digit_first_start s :
  digit_first s = true -> skip_ws s = s /\ split_sign s = (false, s) /\ s <> EmptyString.
Proof. destruct s as [|c s]; [done|]. by destruct c as [[] [] [] [] [] [] [] []]. Qed.

Lemma skip_ws_space sep s : all_space sep = true -> skip_ws (sep +:+ s) = skip_ws s.
Proof.
  induction sep as [|c sep IH]; [done|]. cbn [all_space]. intros [Hc Hs]%andb_true_iff.
  rewrite str_app_cons. simpl. rewrite Hc. auto.
Qed.

Lemma skip_ws_idem s : skip_ws (skip_ws s) = skip_ws s.
Proof. induction s as [|c s IH]; [done|]. simpl. destruct (Ascii.is_space c) eqn:E; [done|]. by simpl; rewrite E. Qed.

Lemma skip_ws_first s c s' : skip_ws s = String c s' -> Ascii.is_space c = false.
Proof. induction s as [|d s IH]; [done|]. simpl. destruct (Ascii.is_space d) eqn:E; [done|]. by intros [= <- _]. Qed.

Lemma skip_ws_fmt_d z r : skip_ws (fmt_d z +:+ r) = fmt_d z +:+ r.
Proof.
  unfold fmt_d. destruct (z <? 0).
  - by rewrite str_app_assoc, str_app_cons.
  - rewrite str_app_nil. apply digit_first_start, digit_first_fmt_u.
Qed.

Lemma fmt_d_nonempty z r : fmt_d z +:+ r <> EmptyString.
Proof.
  unfold fmt_d. destruct (z <? 0); [by rewrite str_app_assoc, str_app_cons|].
  rewrite str_app_nil. apply digit_first_start, digit_first_fmt_u.
Qed.

Lemma scanf_d_nonempty s : skip_ws s <> EmptyString -> scanf_d s = scan_number (skip_ws s).
Proof. unfold scanf_d. by destruct (skip_ws s). Qed.

Lemma scan_number_fmt_d z r :
  digit_first r = false ->
  scan_number (fmt_d z +:+ r) = if CInt.in_int z then Some (Some z, r) else None.
Proof.
  intros Hr. unfold scan_number, fmt_d. destruct (Z.ltb_spec z 0) as [Hz|Hz].
  - rewrite str_app_assoc, str_app_cons, str_app_nil. cbn [split_sign].
    rewrite read_u_fmt by done. cbv zeta. rewrite N2Z.inj_abs_N.
    by replace (- Z.abs z) with z by lia.
  - rewrite str_app_nil. destruct (digit_first_start _ (digit_first_fmt_u (Z.abs_N z) r)) as (_ & -> & _).
    rewrite read_u_fmt by done. cbv zeta. rewrite N2Z.inj_abs_N.
    by replace (Z.abs z) with z by lia.
Qed.

(** A number [%d] printed is read by [scanf("%d")] after any white space. *)
Lemma scanf_d_fmt_d sep z r :
  all_space sep = true -> digit_first r = false ->
  scanf_d (sep +:+ fmt_d z +:+ r) = if CInt.in_int z then Some (Some z, r) else None.
Proof.
  intros Hsep Hr. rewrite scanf_d_nonempty; rewrite skip_ws_space, skip_ws_fmt_d by done.
  - by apply scan_number_fmt_d.
  - apply fmt_d_nonempty.
Qed.

Lemma stuck_digit_first s : stuck s = true -> digit_first s = false.
Proof.
  unfold stuck. destruct s as [|c s]; [done|]. simpl.
  destruct (Ascii.is_space c) eqn:Hc; [by rewrite space_not_digit|].
  intros [[H _]%andb_true_iff _]%andb_true_iff. by apply negb_true_iff in H.
Qed.

Lemma scanf_d_stuck s : stuck s = true -> scanf_d s = Some (None, skip_ws s) /\ stuck (skip_ws s) = true.
Proof.
  unfold stuck, scanf_d. rewrite skip_ws_idem. intros H. split; [|done].
  destruct (skip_ws s) as [|c s'] eqn:E; [done|].
  apply andb_true_iff in H as [[Hd Hm]%andb_true_iff Hp].
  apply negb_true_iff, bool_decide_eq_false in Hd, Hm, Hp.
  unfold scan_number. assert (split_sign (String c s') = (false, String c s')) as ->.
  { by destruct c as [[] [] [] [] [] [] [] []]. }
  unfold read_u. simpl. destruct (digit c); [naive_solver|done].
Qed.

Lemma blank_first sep s : blank sep = true -> digit_first (sep +:+ s) = false.
Proof.
  unfold blank. intros [Hne%bool_decide_eq_true Hs]%andb_true_iff.
  destruct sep as [|c sep]; [done|]. apply andb_true_iff in Hs as [Hc _].
  rewrite str_app_cons. simpl. by rewrite space_not_digit.
Qed.

Lemma input_text_cons sep z zs : input_text sep (z :: zs) = sep +:+ fmt_d z +:+ input_text sep zs.
Proof. done. Qed.

(** ** Lemmas on the controller's text *)

Lemma stdout_text_cons ev evs :
  stdout_text (ev :: evs) = t ← stdout_of ev; rest ← stdout_text evs; Some (t +:+ rest).
Proof. done. Qed.

Lemma stdout_text_app evs1 evs2 :
  stdout_text (evs1 ++ evs2) = t1 ← stdout_text evs1; t2 ← stdout_text evs2; Some (t1 +:+ t2).
Proof.
  induction evs1 as [|ev evs1 IH].
  - simpl. by destruct (stdout_text evs2).
  - rewrite <- app_comm_cons, !stdout_text_cons, IH.
    destruct (stdout_of ev), (stdout_text evs1), (stdout_text evs2); simpl; by rewrite ?str_app_assoc.
Qed.

Lemma stdout_text_None evs ev : ev ∈ evs -> stdout_of ev = None -> stdout_text evs = None.
Proof.
  induction evs as [|ev' evs IH]; intros Hin H; [by apply elem_of_nil in Hin|].
  rewrite stdout_text_cons. apply elem_of_cons in Hin as [->|Hin].
  - by rewrite H.
  - rewrite IH by done. by destruct (stdout_of ev').
Qed.

Lemma print_entries_some ids :
  print_entries (Z.of_nat (length ids)) (map Some ids) =
    map (fun '(n, p) => EvEntry n (Some p)) (numbered ids).
Proof.
  apply list_eq. intros j. unfold print_entries, numbered.
  rewrite !lookup_map, list_lookup_imap, Nat2Z.id.
  destruct (ids !! j) eqn:E; simpl.
  - rewrite lookup_seq_lt by (by apply lookup_lt_Some in E). simpl. by rewrite lookup_map, E.
  - rewrite lookup_seq_ge by (by apply lookup_ge_None in E). done.
Qed.

Lemma stdout_text_entries xs :
  stdout_text (map (fun '(n, p) => EvEntry n (Some p)) xs) =
    Some (print_all (fun '(n, p) => entry_line n p) xs).
Proof. induction xs as [|[n p] xs IH]; [done|]. simpl map. rewrite stdout_text_cons, IH. done. Qed.

Lemma parse_entry_line_app n p r : parse_entry_line (entry_line n p +:+ r) = Some ((n, p), r).
Proof.
  unfold parse_entry_line, entry_line. rewrite !str_app_assoc. by read_back.
Qed.

Lemma entry_line_length n p : (1 <= String.length (entry_line n p))%nat.
Proof.
  unfold entry_line. rewrite !str_length_app. unfold entry_mid. simpl String.length at 2. lia.
Qed.

(** ** Theorems *)

(** C15: The list of line 61 is unambiguous: when every cell of the array
    holds an identifier, the text the loop of lines 60 to 62 prints is
    determined and reads back as exactly the entries with their 1-based
    numbers, identifiers of any sign and size. *)
Theorem entries_text_roundtrip ids :
  exists t, stdout_text (print_entries (Z.of_nat (length ids)) (map Some ids)) = Some t /\
            parse_all parse_entry_line t = Some (numbered ids).
Proof.
  rewrite print_entries_some, stdout_text_entries. eexists. split; [done|].
  apply parse_all_print_all.
  - intros [n p]. apply entry_line_length.
  - intros [n p] r. apply parse_entry_line_app.
Qed.

(** When a cell the list shows was never written (the identifiers ran
    out before qty of them were read), line 61 prints an indeterminate int
    and the text of the list is not determined. *)
Theorem entries_text_indeterminate q cells j :
  (j < Z.to_nat q)%nat -> default None (cells !! j) = None ->
  stdout_text (print_entries q cells) = None.
Proof.
  intros Hj Hc. apply (stdout_text_None _ (EvEntry (Z.of_nat j + 1) None)); [|done].
  unfold print_entries. change (map ?f ?l) with (f <$> l).
  apply (list_elem_of_fmap_2' _ _ j); [apply elem_of_seq; lia|by rewrite Hc].
Qed.

(** C13: scanf("%d") on text refines the list of numbers the model of
    handler.c reads: when standard input is int numbers in decimal, each
    preceded by white space, and then text that starts no number, one scanf
    returns what Registry.scanf_int returns on the list and leaves the text
    of the rest of the list, followed again by text that starts no number. *)
Theorem scanf_d_refines sep zs junk :
  blank sep = true -> Forall (fun z => CInt.in_int z = true) zs -> stuck junk = true ->
  exists junk', stuck junk' = true /\
    scanf_d (input_text sep zs +:+ junk) =
      Some (fst (scanf_int zs), input_text sep (snd (scanf_int zs)) +:+ junk').
Proof.
  intros Hsep Hzs Hj. destruct zs as [|z zs].
  - exists (skip_ws junk). destruct (scanf_d_stuck junk Hj) as [H1 H2]. by split.
  - exists junk. split; [done|]. apply Forall_cons in Hzs as [Hz _].
    rewrite input_text_cons, !str_app_assoc, scanf_d_fmt_d, Hz; [done| |].
    + unfold blank in Hsep. by apply andb_true_iff in Hsep as [_ ?].
    + destruct zs; [by apply stuck_digit_first|]. rewrite input_text_cons, str_app_assoc.
      by apply blank_first.
Qed.

(** A number typed that does not fit an int makes scanf("%d") undefined
    behaviour, whatever white space precedes it. *)
Theorem scanf_d_overflow sep z r :
  all_space sep = true -> digit_first r = false -> CInt.in_int z = false ->
  scanf_d (sep +:+ fmt_d z +:+ r) = None.
Proof. intros Hs Hr Hz. by rewrite scanf_d_fmt_d, Hz. Qed.

(** The message of line 33 ends without a newline, so after a quantity
    out of range the prompt of line 27 continues the same line: on input 7
    then 0 the program prints exactly this text. *)
Theorem transcript_retry :
  stdout_text (snd (main glibc_env 0 [7; 0])) =
    Some (welcome_text +:+ wrong_option_text +:+ welcome_text +:+ ask_pids_text +:+ goodbye_text).
Proof. vm_compute. reflexivity. Qed.

(** ** Witnesses *)

Lemma entries_text_indeterminate_witness :
  stdout_text (print_entries 2 (fst (read_pids 2 [111]))) = None.
Proof. apply (entries_text_indeterminate 2 _ 1); vm_compute; [lia|reflexivity]. Defined.

Lemma scanf_d_refines_witness :
  blank " " = true /\
  exists junk', stuck junk' = true /\
    scanf_d (input_text " " [111; 222] +:+ "x") =
      Some (fst (scanf_int [111; 222]), input_text " " (snd (scanf_int [111; 222])) +:+ junk').
Proof.
  assert (Hb : blank " " = true) by reflexivity.
  assert (Hz : Forall (fun z => CInt.in_int z = true) [111; 222]) by (repeat constructor).
  split; [exact Hb|]. exact (scanf_d_refines " " [111; 222] "x" Hb Hz eq_refl).
Defined.

Lemma scanf_d_overflow_witness : scanf_d (" " +:+ fmt_d 2147483648 +:+ nl) = None.
Proof. apply scanf_d_overflow; vm_compute; reflexivity. Defined.

End Console.
