(* ===== verification/Stdio.v ===== *)
(** * Stdio: standard output of the controller and of its children

    handler.c writes with [printf] into the stdio buffer of [stdout].
    Where the text goes decides how the buffer is emptied: on a terminal
    the stream is line buffered, and the buffer is written out up to its
    last newline each time a newline enters it; to a file or a pipe it is
    fully buffered, and written out when it is full. At the end of
    [main], [return] runs [exit], which writes out what is left.

    [fork] copies the buffer into the child, and the child of lines 80
    to 83 (and the four like it) ends with [exit(1)], which writes its
    copy out as well. [run] follows the events of a run of the
    controller ([Controller.event]) and returns the stream of the
    controller and the copies its children write at their exit, in the
    order of the [fork]s; [stdout_file] adds the final flush.

    The buffer holds [size] characters when the output is a file (glibc
    takes the block size of the file, commonly 4096); the model writes the
    whole buffer out once it would hold [size] characters or more, which
    is how much it writes and not in which pieces. The theorems use runs
    whose text stays below [size]. The flush of line-buffered output
    that glibc performs before reading a line-buffered [stdin] is not
    modelled: every prompt before a [fork] ends with a newline, so it
    would write nothing more. *)

From Stdlib Require Import ZArith Lia Ascii String.
From stdpp Require Import base list options strings.
From S2P Require Import Prelude Signals Registry Controller Console.

Local Open Scope Z_scope.

Module Stdio.
Import Registry Controller Console.

Inductive mode := Terminal | ToFile (size : nat).

(** The buffer of [stdout] and what has reached the terminal or file. *)
Record stream := mkStream { buf : string; written : string }.

Definition empty_stream : stream := mkStream EmptyString EmptyString.

(** The text up to and including its last newline, and the rest. *)
Fixpoint split_last_nl (s : string) : string * string :=
  match s with
  | EmptyString => (EmptyString, EmptyString)
  | String c s' =>
      let '(a, b) := split_last_nl s' in
      match a with
      | String _ _ => (String c a, b)
      | EmptyString =>
          if decide (c = "010"%char) then (String c EmptyString, b)
          else (EmptyString, String c b)
      end
  end.

(** [printf] of the text [t]. *)
Definition put (m : mode) (t : string) (s : stream) : stream :=
  match m with
  | Terminal =>
      let '(a, b) := split_last_nl (buf s +:+ t) in mkStream b (written s +:+ a)
  | ToFile n =>
      let b := buf s +:+ t in
      if bool_decide (n <= String.length b)%nat then mkStream EmptyString (written s +:+ b)
      else mkStream b (written s)
  end.

(** The controller's stream after the events, and the buffer each child
    inherits at its [fork], which it writes at its [exit(1)]. [None] when
    an event prints an indeterminate value. *)
Fixpoint run (m : mode) (s : stream) (evs : list event) : option (stream * list string) :=
  match evs with
  | [] => Some (s, [])
  | EvSend _ _ :: evs' => '(s', cs) ← run m s evs'; Some (s', buf s :: cs)
  | ev :: evs' => t ← stdout_of ev; run m (put m t s) evs'
  end.

(** What the controller writes in all, its final [exit] included, and
    what its children write. *)
Definition stdout_file (m : mode) (evs : list event) : option (string * list string) :=
  '(s, cs) ← run m empty_stream evs; Some (written s +:+ buf s, cs).

(** Every child is forked right after the menu was printed: [menu]
    says whether the event before the list was the menu. *)
Fixpoint forks_after_menu (menu : bool) (evs : list event) : bool :=
  match evs with
  | [] => true
  | EvSend _ _ :: r => menu && forks_after_menu false r
  | EvMenu :: r => forks_after_menu true r
  | _ :: r => forks_after_menu false r
  end.

(** Whether the last event is the menu, after [evs]. *)
Fixpoint menu_last (menu : bool) (evs : list event) : bool :=
  match evs with
  | [] => menu
  | EvMenu :: r => menu_last true r
  | _ :: r => menu_last false r
  end.

Definition is_send (ev : event) : bool := match ev with EvSend _ _ => true | _ => false end.

(** The events of a finished or unfinished run. *)
Definition res_out (r : ctl + (outcome * list event)) : list event :=
  match r with inl c => out c | inr (_, evs) => evs end.

(** The input of the spec's scenarios: identifiers 111 and 222, toggle
    entry 1, kill entry 2, kill entry 1. *)
Definition scenario_input : list Z := [2; 111; 222; 1; 3; 2; 5; 1; 5].

(** ** Lemmas on the buffer *)

Lemma split_last_nl_nl s : split_last_nl (s +:+ nl) = (s +:+ nl, EmptyString).
Proof.
  induction s as [|c s IH]; [done|]. rewrite str_app_cons. simpl. rewrite IH.
  by destruct (s +:+ nl) eqn:E; [destruct s|].
Qed.

Lemma menu_text_nl : exists x, menu_text = x +:+ nl.
Proof. eexists. unfold menu_text. rewrite <- !str_app_assoc. reflexivity. Qed.

(** On a terminal the menu, which ends with a newline, empties the buffer. *)
Lemma put_menu_terminal s : buf (put Terminal menu_text s) = EmptyString.
Proof.
  destruct menu_text_nl as [x ->]. unfold put.
  rewrite <- str_app_assoc, split_last_nl_nl. done.
Qed.

Lemma run_terminal menu s evs s' cs :
  forks_after_menu menu evs = true -> (menu = true -> buf s = EmptyString) ->
  run Terminal s evs = Some (s', cs) -> Forall (fun c => c = EmptyString) cs.
Proof.
  revert menu s cs. induction evs as [|ev evs IH]; intros menu s cs Hf Hb Hr.
  { injection Hr as _ <-. done. }
  destruct ev; cbn [forks_after_menu run] in Hf, Hr;
    try (destruct (stdout_of _) eqn:E; [|done]; cbn [mbind option_bind] in Hr;
         by eapply IH; [exact Hf| |exact Hr]).
  - cbn [stdout_of mbind option_bind] in Hr. eapply IH; [exact Hf| |exact Hr].
    intros _. apply put_menu_terminal.
  - apply andb_true_iff in Hf as [-> Hf].
    destruct (run Terminal s evs) as [[s1 cs1]|] eqn:E; [|done]. injection Hr as <- <-.
    constructor; [by apply Hb|]. by eapply IH; [exact Hf| |exact E].
Qed.

Lemma sent_cons_send s c evs : sent (EvSend s c :: evs) = (s, c) :: sent evs.
Proof. done. Qed.

(** Below the size of the buffer, a file receives nothing before the
    final flush, and each child copies everything printed before its
    [fork]. *)
Lemma run_file n pre evs t :
  stdout_text evs = Some t -> (String.length (pre +:+ t) < n)%nat ->
  exists cs, run (ToFile n) (mkStream pre EmptyString) evs = Some (mkStream (pre +:+ t) EmptyString, cs) /\
    length cs = length (sent evs) /\
    Forall (fun c => exists u v, c = pre +:+ u /\ pre +:+ t = c +:+ v) cs.
Proof.
  revert pre t. induction evs as [|ev evs IH]; intros pre t Ht Hn.
  { injection Ht as <-. exists []. by rewrite str_app_nil_r. }
  rewrite stdout_text_cons in Ht.
  destruct (stdout_of ev) as [t1|] eqn:E1; [|done]. cbn [mbind option_bind] in Ht.
  destruct (stdout_text evs) as [t2|] eqn:E2; [|done]. injection Ht as <-.
  destruct ev;
    try (cbn [run]; rewrite E1; cbn [mbind option_bind];
         destruct (IH (pre +:+ t1) t2) as (cs & Hr & Hl & Hc); [done|by rewrite str_app_assoc|];
         exists cs; unfold put; cbn [buf written]; rewrite bool_decide_false by (rewrite !str_length_app in *; lia);
         rewrite Hr, <- str_app_assoc; split; [done|split; [exact Hl|]];
         eapply Forall_impl; [exact Hc|]; intros c0 (u & v & -> & Hv);
         exists (t1 +:+ u), v; by rewrite !str_app_assoc in *).
  - cbn in E1. injection E1 as <-. destruct (IH pre t2) as (cs & Hr & Hl & Hc); [done|done|].
    exists (pre :: cs). cbn [run]. rewrite Hr. split; [done|].
    rewrite sent_cons_send. split; [cbn [length]; by rewrite Hl|].
    constructor; [|done]. exists EmptyString, t2. by rewrite str_app_nil_r.
Qed.

(** ** The events of [main] *)

Lemma forks_after_menu_app menu l1 l2 :
  forks_after_menu menu (l1 ++ l2) = forks_after_menu menu l1 && forks_after_menu (menu_last menu l1) l2.
Proof.
  revert menu. induction l1 as [|ev l1 IH]; intros menu; [done|].
  destruct ev; cbn [app forks_after_menu menu_last]; rewrite ?IH; try done.
  by rewrite andb_assoc.
Qed.

Lemma forks_after_menu_no_send menu l :
  Forall (fun ev => is_send ev = false) l -> forks_after_menu menu l = true.
Proof.
  revert menu. induction l as [|ev l IH]; intros menu Hl; [done|].
  apply Forall_cons in Hl as [Hev Hl]. by destruct ev; cbn; auto.
Qed.

Lemma forks_after_menu_entries q cells r :
  forks_after_menu false (print_entries q cells ++ r) = forks_after_menu false r.
Proof.
  unfold print_entries.
  match goal with |- context [seq ?a ?b] => induction (seq a b) as [|j l IH] end; [done|].
  by cbn [map app forks_after_menu].
Qed.

(** One turn keeps every [fork] right after the menu. *)
Lemma interact_step_forks e c :
  forks_after_menu false (out c) = true -> forks_after_menu false (res_out (interact_step e c)) = true.
Proof.
  intros H. unfold interact_step, dispatch.
  repeat (case_match; simplify_eq/=);
    rewrite <- ?app_assoc, forks_after_menu_app, H; cbn [app forks_after_menu];
    rewrite ?forks_after_menu_entries; cbn; try done;
    rewrite forks_after_menu_app; cbn; by rewrite andb_true_r.
Qed.

Lemma interact_loop_forks e fuel c :
  forks_after_menu false (out c) = true -> forks_after_menu false (snd (interact_loop e fuel c)) = true.
Proof.
  revert c. induction fuel as [|f IH]; intros c H; cbn [interact_loop].
  - case_match; [done|]. cbn [snd]. rewrite forks_after_menu_app, H. done.
  - case_match; [|cbn [snd]; rewrite forks_after_menu_app, H; done].
    pose proof (interact_step_forks e c H) as Hs.
    destruct (interact_step e c) as [c'|[o evs]]; [by apply IH|done].
Qed.

Lemma qty_loop_out_no_send n :
  Forall (fun ev => is_send ev = false) ([] ++ concat (replicate n [EvWelcome; EvWrongOption]) ++ [EvWelcome]).
Proof.
  apply Forall_app; split; [done|]. apply Forall_app; split; [|by repeat constructor].
  apply Forall_concat, Forall_replicate. by repeat constructor.
Qed.

Lemma main_forks_after_menu e fuel inp : forks_after_menu false (snd (main e fuel inp)) = true.
Proof.
  unfold main.
  destruct (qty_loop_gen (S (length inp)) 0 inp []) as (n & q & inp' & Hrun & _); [lia|lia|].
  rewrite Hrun. unfold startup. destruct (malloc_ok e (q * sizeof_int)).
  - destruct (read_pids _ _). apply interact_loop_forks. cbn [out].
    apply forks_after_menu_no_send, Forall_app. split; [apply qty_loop_out_no_send|by repeat constructor].
  - apply forks_after_menu_no_send, Forall_app. split; [apply qty_loop_out_no_send|by repeat constructor].
Qed.

(** Every run of [main] starts with the welcome prompt. *)
Lemma interact_loop_extends e fuel c : exists r, snd (interact_loop e fuel c) = out c ++ r.
Proof.
  revert c. induction fuel as [|f IH]; intros c; cbn [interact_loop].
  - case_match; eexists; [by rewrite app_nil_r|done].
  - case_match; [|by eexists].
    assert (Hs : exists r, res_out (interact_step e c) = out c ++ r).
    { unfold interact_step, dispatch. repeat (case_match; simplify_eq/=); eexists; by rewrite <- ?app_assoc. }
    destruct (interact_step e c) as [c'|[o evs]]; destruct Hs as [r Hr]; cbn [res_out] in Hr.
    + destruct (IH c') as [r' ->]. rewrite Hr, <- app_assoc. by eexists.
    + by exists r.
Qed.

Lemma main_starts_welcome e fuel inp : exists r, snd (main e fuel inp) = EvWelcome :: r.
Proof.
  unfold main.
  destruct (qty_loop_gen (S (length inp)) 0 inp []) as (n & q & inp' & Hrun & _); [lia|lia|].
  rewrite Hrun. assert (Hw : exists r, [] ++ concat (replicate n [EvWelcome; EvWrongOption]) ++ [EvWelcome] = EvWelcome :: r)
    by (destruct n; eexists; reflexivity).
  destruct Hw as [r0 Hw]. rewrite Hw. unfold startup. destruct (malloc_ok e (q * sizeof_int)).
  - destruct (read_pids _ _). destruct (interact_loop_extends e fuel (mkCtl (mkArray q l) 0 0 l0 ((EvWelcome :: r0) ++ [EvAskPids]) 0)) as [r ->].
    by eexists.
  - by eexists.
Qed.

(** ** Theorems *)

(** C17: On a terminal the forked children write nothing: every child is
    forked right after the menu, whose last newline emptied the line buffer,
    so the copy its exit(1) flushes is empty, in every run of main. *)
Theorem children_silent_on_terminal e fuel inp t cs :
  stdout_file Terminal (snd (main e fuel inp)) = Some (t, cs) -> Forall (fun c => c = EmptyString) cs.
Proof.
  unfold stdout_file. destruct (run Terminal empty_stream _) as [[s cs']|] eqn:E; [|done].
  intros [= _ <-]. eapply (run_terminal false); [apply main_forks_after_menu|done|exact E].
Qed.

(** C16: When standard output is a file, the exit(1) of every forked child
    flushes its copy of the controller's unwritten buffer: as long as the
    text stays below the buffer size, the file receives what the controller
    prints and, once per child, a prefix of that text starting with the
    welcome prompt, which the controller's final flush writes again. *)
Theorem children_repeat_in_file e fuel inp n t :
  stdout_text (snd (main e fuel inp)) = Some t -> (String.length t < n)%nat ->
  exists cs, stdout_file (ToFile n) (snd (main e fuel inp)) = Some (t, cs) /\
    length cs = length (sent (snd (main e fuel inp))) /\
    Forall (fun c => exists u v, c = welcome_text +:+ u /\ t = c +:+ v) cs.
Proof.
  destruct (main_starts_welcome e fuel inp) as [r ->]. intros Ht Hn.
  rewrite stdout_text_cons in Ht. cbn [stdout_of mbind option_bind] in Ht.
  destruct (stdout_text r) as [t2|] eqn:E; [|done]. injection Ht as <-.
  destruct (run_file n welcome_text r t2) as (cs & Hr & Hl & Hc); [done|done|].
  exists cs. unfold stdout_file. cbn [run stdout_of mbind option_bind].
  unfold put at 1. cbn [buf written empty_stream]. rewrite str_app_nil, bool_decide_false by (rewrite !str_length_app in *; lia).
  rewrite Hr. split; [done|]. split; [exact Hl|exact Hc].
Qed.

(** ** Witnesses *)

Lemma children_silent_on_terminal_witness :
  exists t cs, stdout_file Terminal (snd (main glibc_env 10 scenario_input)) = Some (t, cs) /\
    Forall (fun c => c = EmptyString) cs.
Proof.
  destruct (stdout_file Terminal (snd (main glibc_env 10 scenario_input))) as [[t cs]|] eqn:E;
    [|vm_compute in E; discriminate].
  exists t, cs. split; [done|]. exact (children_silent_on_terminal _ _ _ t cs E).
Defined.

Lemma children_repeat_in_file_witness :
  exists t cs, stdout_file (ToFile 4096) (snd (main glibc_env 10 scenario_input)) = Some (t, cs) /\
    length cs = 3%nat /\ Forall (fun c => exists u v, c = welcome_text +:+ u /\ t = c +:+ v) cs.
Proof.
  destruct (stdout_text (snd (main glibc_env 10 scenario_input))) as [t|] eqn:E;
    [|vm_compute in E; discriminate].
  assert (Hn : (String.length t < 4096)%nat).
  { vm_compute in E. injection E as <-. vm_compute. lia. }
  destruct (children_repeat_in_file glibc_env 10 scenario_input 4096 t E Hn) as (cs & H1 & H2 & H3).
  exists t, cs. split_and!; [exact H1| |exact H3]. rewrite H2. reflexivity.
Defined.

End Stdio.
