(* ===== verification/System.v ===== *)
(** * System: one controller and the counters it signals

    The two programs share nothing but process identifiers. The world
    holds the controller (running, or finished with its outcome) with its
    status as a process (running, stopped by a signal, or killed by one),
    the other processes by pid ([gmap Z P]) and the signals in flight:
    each forked child of handler.c has been created but its [kill] has
    not reached its target yet. The world moves by a turn of the
    controller's loop while it is not stopped ([Controller.loop_turn]),
    whose new [EvSend] events join the signals in flight; by the delivery
    of any signal in flight, in any order; or by a step of any process.

    A delivery is [kill(pid, s)] with the rule of [kill(2)]
    ([Signals.kill_target_of]): a positive pid names one process, [0] the
    sender's process group, which the forked child shares with the
    controller, [-1] every process of the user, and [-g] the group [g].
    Which group each process is in is the [layout] the processes were
    started with. A cell that [scanf] never wrote holds an indeterminate
    [int], so its child may send to any pid. The controller installs no
    handler: every signal it receives has its default action
    ([ctl_post]).

    The world is stated for any process type with the [SignalTarget]
    interface; the theorems about the counter instantiate it with
    [Counter.proc] and [Counter.pstep]. *)

From Stdlib Require Import ZArith Lia.
From stdpp Require Import base list options gmap relations.
From S2P Require Import Prelude Signals Counter Registry Controller ControllerRuns.

Local Open Scope Z_scope.

Module System.
Import Registry Controller ControllerRuns.

(** The signals a turn of the controller's loop sends. *)
Definition new_sends (c : ctl) (r : ctl + (outcome * list event)) : list (signal * cell) :=
  let evs := match r with inl c' => out c' | inr (_, evs) => evs end in
  sent (drop (length (out c)) evs).

(** How the processes were started: the controller's pid and process
    group, and the group of every other process. A forked child stays in
    the group of the controller. *)
Record layout := mkLayout {
  ctl_pid : Z;
  ctl_pgid : Z;
  pgid_of : Z -> Z;
}.

(** Does [kill] with the target [t], sent by a child of the controller,
    reach the process [q] of group [g]? *)
Definition reaches (L : layout) (t : kill_target) (q g : Z) : bool :=
  match t with
  | ToProcess p => bool_decide (p = q)
  | ToOwnGroup => bool_decide (g = ctl_pgid L)
  | ToEveryone => true
  | ToGroup g' => bool_decide (g = g')
  end.

(** The controller as a process. *)
Inductive cstatus := CRunning | CStopped | CKilled (s : signal).

#[export] Instance cstatus_eq_dec : EqDecision cstatus.
Proof. solve_decision. Defined.

(** handler.c calls no [signal()]: SIGUSR1, SIGUSR2 and SIGKILL terminate
    the controller, SIGSTOP stops it and SIGCONT continues it. *)
Definition ctl_post (s : signal) (cs : cstatus) : cstatus :=
  match cs with
  | CKilled _ => cs
  | _ => match s with SIGSTOP => CStopped | SIGCONT => CRunning | _ => CKilled s end
  end.

(** The pid a child sends to: the cell's identifier, or any [int] when
    the cell was never written. *)
Definition may_hold (c : cell) (z : Z) : Prop :=
  match c with Some z' => z = z' | None => CInt.in_int z = true end.

Section World.
Context {P : Type} `{!SignalTarget P}.
Variable e : env.
Variable proc_step : P -> P -> Prop.
Variable L : layout.

(** [kill] with target [t] reaching the processes of the world. *)
Definition deliver (s : signal) (t : kill_target) (procs : gmap Z P) : gmap Z P :=
  map_imap (fun q x => Some (if reaches L t q (pgid_of L q) then post s x else x)) procs.

Record world := mkWorld {
  w_ctl : ctl + (outcome * list event);
  w_cst : cstatus;
  w_procs : gmap Z P;
  w_flight : list (signal * cell);
}.

Inductive wstep : world -> world -> Prop :=
  | ws_ctl c procs fl :
      wstep (mkWorld (inl c) CRunning procs fl)
            (mkWorld (loop_turn e c) CRunning procs (fl ++ new_sends c (loop_turn e c)))
  | ws_deliver r cs procs fl1 fl2 s c z :
      may_hold c z ->
      wstep (mkWorld r cs procs (fl1 ++ (s, c) :: fl2))
            (mkWorld r (if reaches L (kill_target_of z) (ctl_pid L) (ctl_pgid L)
                        then ctl_post s cs else cs)
                     (deliver s (kill_target_of z) procs) (fl1 ++ fl2))
  | ws_proc r cs procs fl p x y :
      procs !! p = Some x -> proc_step x y ->
      wstep (mkWorld r cs procs fl) (mkWorld r cs (<[p := y]> procs) fl).

End World.

Arguments mkWorld {P}.
Import (hints) Counter.Counter.

(** The process [p] exists and is terminated. *)
Definition killed {P} `{!SignalTarget P} (p : Z) (w : world (P := P)) : Prop :=
  exists y, w_procs w !! p = Some y /\ terminated y = true.

(** Started from a shell: the controller is pid [100] and leads its own
    group, and each counter leads its own group. *)
Definition shell_layout : layout := mkLayout 100 100 (fun q => q).

(** A counter sleeping with [i = 5] and [sign = 1]. *)
Definition sleeping (n : Z) : Counter.proc :=
  Counter.mkProc n (Counter.mkGlobals 5 1) Counter.Sleep Counter.Running false false [].

(** The controller manages one counter, [7]; the operator stops it, then
    continues it. *)
Definition w_stopcont : world :=
  mkWorld (inl (mkCtl (mkArray 1 [Some 7]) 0 0 [1; 1; 1; 2] [] 0)) CRunning {[7 := sleeping 7]} [].

(** Scenario A of the spec with running counters: toggle entry 1 of [111; 222]. *)
Definition w_scenario_A : world :=
  mkWorld (inl (mkCtl (mkArray 2 [Some 111; Some 222]) 0 0 [1; 3] [] 0)) CRunning
    {[111 := sleeping 111; 222 := sleeping 222]} [].

(** The operator typed [0] as the identifier of the only counter, then
    asks to stop entry 1. *)
Definition w_pid_zero : world :=
  mkWorld (inl (mkCtl (mkArray 1 [Some 0]) 0 0 [1; 1] [] 0)) CRunning {[7 := sleeping 7]} [].

(** ** Lemmas and theorems *)

Section Delivery.
Context {P : Type} `{!SignalTarget P}.
Variable L : layout.

Lemma lookup_deliver s t procs q :
  deliver L s t procs !! q =
    (fun x => if reaches L t q (pgid_of L q) then post s x else x) <$> procs !! q.
Proof. unfold deliver. rewrite map_lookup_imap. by destruct (procs !! q). Qed.

(** [kill] with a positive pid changes that process only. *)
Lemma deliver_process s p (procs : gmap Z P) :
  deliver L s (ToProcess p) procs = alter (post s) p procs.
Proof.
  apply map_eq. intros q. rewrite lookup_deliver. simpl.
  destruct (decide (p = q)) as [<-|Hne].
  - rewrite lookup_alter_eq, bool_decide_true by done. done.
  - rewrite lookup_alter_ne, bool_decide_false by done. by destruct (procs !! q).
Qed.

Lemma kill_target_pos p : 0 < p -> kill_target_of p = ToProcess p.
Proof. intros Hp. unfold kill_target_of. by rewrite decide_True. Qed.
End Delivery.

(** A kill command on a valid index forks one child, which sends SIGKILL
    to the entry's identifier, whether or not the [realloc] then fails. *)
Lemma loop_turn_kill_sends e c k rest p :
  inp c = k :: 5 :: rest -> 1 <= k <= qty (arr c) ->
  pids (arr c) !! Z.to_nat (k - 1) = Some (Some p) -> fork_ok e (forks c) = true ->
  new_sends c (loop_turn e c) = [(SIGKILL, Some p)].
Proof.
  intros Hinp Hk Hp Hf. unfold loop_turn. rewrite (proj2 (Z.ltb_lt 0 _)) by lia.
  unfold interact_step. rewrite Hinp, !scan_cons, index_of_in by done.
  cbn -[print_entries array_remove]. rewrite Hp, Hf. cbn -[print_entries array_remove].
  unfold new_sends. destruct (negb _ && _); cbn [out];
    rewrite <- ?app_assoc, drop_app_length, !sent_app;
    change (sent (EvAskInstance :: ?l)) with (sent l); by rewrite sent_print_entries.
Qed.

Section Status.
Context {P : Type} `{!SignalTarget P}.
Variable e : env.
Variable proc_step : P -> P -> Prop.
Variable L : layout.

(** A killed controller stays killed. *)
Lemma rtc_ctl_killed s w w' :
  w_cst w = CKilled s -> rtc (wstep e proc_step L) w w' -> w_cst w' = CKilled s.
Proof.
  intros Hk Hr. induction Hr as [|w1 w2 w3 Hs _ IH]; [done|]. apply IH.
  destruct Hs; simpl in *; subst; try done. by case_match.
Qed.

(** A stopped controller with no signal in flight never moves again: only
    the other processes do. *)
Lemma wstep_frozen w w' :
  w_cst w = CStopped -> w_flight w = [] -> wstep e proc_step L w w' ->
  w_ctl w' = w_ctl w /\ w_cst w' = CStopped /\ w_flight w' = [].
Proof.
  intros Hc Hf Hs. destruct Hs; simpl in *; try done.
  by destruct fl1.
Qed.

Lemma rtc_frozen w w' :
  w_cst w = CStopped -> w_flight w = [] -> rtc (wstep e proc_step L) w w' ->
  w_ctl w' = w_ctl w /\ w_cst w' = CStopped /\ w_flight w' = [].
Proof.
  intros Hc Hf Hr. induction Hr as [|w1 w2 w3 Hs _ IH]; [done|].
  destruct (wstep_frozen w1 w2) as (E1 & E2 & E3); [done..|].
  destruct (IH E2 E3) as (F1 & F2 & F3). rewrite F1, E1. done.
Qed.

End Status.

Section Theorems.
Local Set Default Proof Using "All".
Context {P : Type} `{!SignalTarget P} `{!SignalTargetLaws P}.
Variable e : env.
Variable proc_step : P -> P -> Prop.
Variable L : layout.
Hypothesis proc_step_live : forall x y, proc_step x y -> terminated x = false.

Lemma wstep_killed p w w' : killed p w -> wstep e proc_step L w w' -> killed p w'.
Proof.
  intros (y & Hy & Ht) Hs.
  destruct Hs as [c procs fl|r cs procs fl1 fl2 s c z Hz|r cs procs fl q x x' Hx Hstep];
    unfold killed; cbn [w_procs] in *.
  - by exists y.
  - exists y. rewrite lookup_deliver, Hy. simpl. case_match; [|done].
    by rewrite post_terminated_inert.
  - destruct (decide (q = p)) as [->|Hne].
    + rewrite Hy in Hx. injection Hx as <-. apply proc_step_live in Hstep. congruence.
    + exists y. by rewrite lookup_insert_ne.
Qed.

Lemma rtc_killed p w w' : killed p w -> rtc (wstep e proc_step L) w w' -> killed p w'.
Proof. intros Hk Hr. induction Hr; eauto using wstep_killed. Qed.

(** A kill command reaches its counter: when the operator selects a
    valid entry holding a positive pid and action 5, the controller's
    iteration forks a child that sends SIGKILL to that pid, and once it is
    delivered the counter is terminated and stays terminated in every
    later state of the system, whatever the controller, the other children
    and the processes do. *)
(** C8: A kill command reaches its counter: when the operator selects a
    valid entry holding a positive pid and action 5, the controller's
    iteration forks a child that sends SIGKILL to that pid, and once it is
    delivered the counter is terminated and stays terminated in every later
    state of the system, whatever the controller, the other children and the
    processes do. *)
Theorem kill_action_terminates_counter c k rest procs fl p x :
  inp c = k :: 5 :: rest -> 1 <= k <= qty (arr c) ->
  pids (arr c) !! Z.to_nat (k - 1) = Some (Some p) -> fork_ok e (forks c) = true ->
  0 < p -> procs !! p = Some x ->
  exists w1 w2,
    wstep e proc_step L (mkWorld (inl c) CRunning procs fl) w1 /\
    wstep e proc_step L w1 w2 /\ w_flight w2 = fl /\
    forall w', rtc (wstep e proc_step L) w2 w' -> killed p w'.
Proof.
  intros Hinp Hk Hp Hf Hpos Hx.
  pose proof (ws_ctl e proc_step L c procs fl) as H1.
  rewrite (loop_turn_kill_sends e c k rest p) in H1 by done.
  do 2 eexists. split; [exact H1|].
  split; [apply (ws_deliver e proc_step L (loop_turn e c) CRunning procs fl [] SIGKILL (Some p) p); done|].
  split; [apply app_nil_r|]. intros w' Hr. eapply rtc_killed; [|exact Hr].
  exists (post SIGKILL x). simpl. rewrite kill_target_pos, deliver_process by done.
  rewrite lookup_alter_eq, Hx. split; [done|]. apply post_kill_terminates.
Qed.

(** C11: Identifiers are not checked: when the operator selects a valid
    entry holding -1 and action 5, the controller's iteration forks a child
    that runs kill(-1, SIGKILL), which reaches every process of the user:
    once it is delivered, every counter of the world and the controller
    itself are killed, and they stay so in every later state of the system. *)
Theorem kill_minus_one_kills_all c k rest procs fl :
  inp c = k :: 5 :: rest -> 1 <= k <= qty (arr c) ->
  pids (arr c) !! Z.to_nat (k - 1) = Some (Some (-1)) -> fork_ok e (forks c) = true ->
  exists w1 w2,
    wstep e proc_step L (mkWorld (inl c) CRunning procs fl) w1 /\
    wstep e proc_step L w1 w2 /\
    forall w', rtc (wstep e proc_step L) w2 w' ->
      (exists s, w_cst w' = CKilled s) /\ forall q, is_Some (procs !! q) -> killed q w'.
Proof.
  intros Hinp Hk Hp Hf.
  pose proof (ws_ctl e proc_step L c procs fl) as H1.
  rewrite (loop_turn_kill_sends e c k rest (-1)) in H1 by done.
  do 2 eexists. split; [exact H1|].
  split; [apply (ws_deliver e proc_step L (loop_turn e c) CRunning procs fl [] SIGKILL (Some (-1)) (-1)); done|].
  intros w' Hr. split.
  - eexists. eapply rtc_ctl_killed; [|exact Hr]. done.
  - intros q [x Hx]. eapply rtc_killed; [|exact Hr]. exists (post SIGKILL x).
    simpl. rewrite lookup_deliver, Hx. split; [done|]. apply post_kill_terminates.
Qed.

End Theorems.

Section Steps.
Context {P : Type} `{!SignalTarget P}.
Variable e : env.
Variable proc_step : P -> P -> Prop.
Variable L : layout.

Lemma ws_ctl_to c c' procs fl ns :
  loop_turn e c = inl c' -> new_sends c (inl c') = ns ->
  wstep e proc_step L (mkWorld (inl c) CRunning procs fl) (mkWorld (inl c') CRunning procs (fl ++ ns)).
Proof. intros H1 H2. rewrite <- H2, <- H1. constructor. Qed.

Lemma ws_deliver_at r cs procs fl fl1 fl2 s p :
  fl = fl1 ++ (s, Some p) :: fl2 -> 0 < p -> p <> ctl_pid L ->
  wstep e proc_step L (mkWorld r cs procs fl) (mkWorld r cs (alter (post s) p procs) (fl1 ++ fl2)).
Proof.
  intros -> Hp Hc.
  pose proof (ws_deliver e proc_step L r cs procs fl1 fl2 s (Some p) p eq_refl) as H.
  rewrite kill_target_pos, deliver_process in H by done. cbn [reaches] in H.
  by rewrite bool_decide_false in H.
Qed.

(** Every run of the whole system (controller, forked children,
    counters), projected on the controller, is a run of the controller
    alone: the controller never reads anything from the counters and learns
    nothing of the signals' fate. *)
Theorem controller_runs_alone w w' :
  rtc (wstep e proc_step L) w w' -> rtc (ctl_turn e) (w_ctl w) (w_ctl w').
Proof.
  induction 1 as [|w1 w2 w3 Hs _ IH]; [done|].
  destruct Hs; simpl in *; try done. eapply rtc_l; [constructor|done].
Qed.
End Steps.

Lemma pstep_live x y : Counter.pstep x y -> terminated x = false.
Proof. intros Hs. destruct Hs as [p Hr|s p Hr _]; simpl; unfold Counter.is_terminated; by rewrite Hr. Qed.

(** C9: The forked children deliver in any order: after the operator stops
    counter 7 and then continues it, with both signals delivered and the
    controller in the same state, the counter may end running or stopped. *)
Theorem stop_continue_race :
  exists w1 w2,
    rtc (wstep glibc_env Counter.pstep shell_layout) w_stopcont w1 /\
    rtc (wstep glibc_env Counter.pstep shell_layout) w_stopcont w2 /\
    w_ctl w1 = w_ctl w2 /\ w_flight w1 = [] /\ w_flight w2 = [] /\
    (exists y, w_procs w1 !! 7 = Some y /\ Counter.st y = Counter.Running) /\
    (exists y, w_procs w2 !! 7 = Some y /\ Counter.st y = Counter.Stopped).
Proof.
  do 2 eexists. split_and!.
  - eapply rtc_l; [eapply ws_ctl_to; reflexivity|].
    eapply rtc_l; [eapply ws_ctl_to; reflexivity|].
    eapply rtc_l; [eapply (ws_deliver_at _ _ _ _ _ _ _ [] [(SIGCONT, Some 7)]); [reflexivity|lia|done]|].
    eapply rtc_l; [eapply (ws_deliver_at _ _ _ _ _ _ _ [] []); [reflexivity|lia|done]|].
    apply rtc_refl.
  - eapply rtc_l; [eapply ws_ctl_to; reflexivity|].
    eapply rtc_l; [eapply ws_ctl_to; reflexivity|].
    eapply rtc_l; [eapply (ws_deliver_at _ _ _ _ _ _ _ [(SIGSTOP, Some 7)] []); [reflexivity|lia|done]|].
    eapply rtc_l; [eapply (ws_deliver_at _ _ _ _ _ _ _ [] []); [reflexivity|lia|done]|].
    apply rtc_refl.
  - reflexivity.
  - reflexivity.
  - reflexivity.
  - eexists. split; reflexivity.
  - eexists. split; reflexivity.
Qed.

(** Scenario A with running counters: toggling entry 1 of [111; 222]
    sends SIGUSR2 to 111 only; once delivered and handled, counter 111
    counts downwards, counter 222 is untouched and the registry is still
    [111; 222]. *)
Theorem scenario_A_toggle :
  exists w, rtc (wstep glibc_env Counter.pstep shell_layout) w_scenario_A w /\ w_flight w = [] /\
    (exists c, w_ctl w = inl c /\ pids (arr c) = [Some 111; Some 222]) /\
    (exists y, w_procs w !! 111 = Some y /\ Counter.sign (Counter.glob y) = -1) /\
    w_procs w !! 222 = Some (sleeping 222).
Proof.
  eexists. split_and!.
  - eapply rtc_l; [eapply ws_ctl_to; reflexivity|].
    eapply rtc_l; [eapply (ws_deliver_at _ _ _ _ _ _ _ [] []); [reflexivity|lia|done]|].
    eapply rtc_l; [eapply (ws_proc _ _ _ _ _ _ _ 111); [reflexivity|apply (Counter.pstep_signal SIGUSR2); reflexivity]|].
    apply rtc_refl.
  - reflexivity.
  - eexists. split; reflexivity.
  - eexists. split; reflexivity.
  - reflexivity.
Qed.

(** C10: Identifiers are not checked: when the operator typed 0 as a pid and
    asks to stop that entry, the forked child runs kill(0, SIGSTOP), which
    reaches its own process group, the controller's: the controller stops
    itself, and from then on no step of the system ever runs it again, since
    only it would send the SIGCONT. *)
Theorem pid_zero_stops_controller :
  exists w1, rtc (wstep glibc_env Counter.pstep shell_layout) w_pid_zero w1 /\
    w_cst w1 = CStopped /\
    forall w', rtc (wstep glibc_env Counter.pstep shell_layout) w1 w' ->
      w_ctl w' = w_ctl w1 /\ w_cst w' = CStopped.
Proof.
  eexists. split_and!.
  - eapply rtc_l; [eapply ws_ctl_to; reflexivity|].
    eapply rtc_l; [apply (ws_deliver _ _ _ _ _ _ [] [] SIGSTOP (Some 0) 0); reflexivity|].
    apply rtc_refl.
  - reflexivity.
  - intros w' Hr. apply rtc_frozen in Hr as (H1 & H2 & _); [by split|reflexivity..].
Qed.

(** ** Witnesses *)

(** The operator kills entry 2 of [111; 222], or an entry typed as -1. *)
Lemma kill_action_terminates_counter_witness :
  exists w1 w2,
    wstep glibc_env Counter.pstep shell_layout
      (mkWorld (inl (mkCtl (mkArray 2 [Some 111; Some 222]) 0 0 [2; 5] [] 0)) CRunning
         (w_procs w_scenario_A) []) w1 /\
    wstep glibc_env Counter.pstep shell_layout w1 w2 /\ w_flight w2 = [] /\ killed 222 w2.
Proof.
  destruct (kill_action_terminates_counter glibc_env Counter.pstep shell_layout pstep_live
              (mkCtl (mkArray 2 [Some 111; Some 222]) 0 0 [2; 5] [] 0) 2 []
              (w_procs w_scenario_A) [] 222 (sleeping 222)) as (w1 & w2 & H1 & H2 & H3 & H4);
    [reflexivity|simpl; lia|reflexivity|reflexivity|lia|reflexivity|].
  exists w1, w2. split_and!; [exact H1|exact H2|exact H3|apply H4, rtc_refl].
Defined.

Lemma kill_minus_one_kills_all_witness :
  exists w1 w2,
    wstep glibc_env Counter.pstep shell_layout
      (mkWorld (inl (mkCtl (mkArray 1 [Some (-1)]) 0 0 [1; 5] [] 0)) CRunning (w_procs w_scenario_A) []) w1 /\
    wstep glibc_env Counter.pstep shell_layout w1 w2 /\
    (exists s, w_cst w2 = CKilled s) /\ killed 111 w2 /\ killed 222 w2.
Proof.
  destruct (kill_minus_one_kills_all glibc_env Counter.pstep shell_layout pstep_live
              (mkCtl (mkArray 1 [Some (-1)]) 0 0 [1; 5] [] 0) 1 [] (w_procs w_scenario_A) [])
    as (w1 & w2 & H1 & H2 & H3); [reflexivity|simpl; lia|reflexivity|reflexivity|].
  destruct (H3 w2 (rtc_refl _ _)) as [Hc Hk].
  exists w1, w2. split_and!; [exact H1|exact H2|exact Hc|apply Hk; by eexists|apply Hk; by eexists].
Defined.

Lemma controller_runs_alone_witness :
  let c0 := mkCtl (mkArray 1 [Some 7]) 0 0 [1; 1; 1; 2] [] 0 in
  let w1 := mkWorld (loop_turn glibc_env c0) CRunning {[7 := sleeping 7]}
              ([] ++ new_sends c0 (loop_turn glibc_env c0)) in
  rtc (wstep glibc_env Counter.pstep shell_layout) w_stopcont w1 /\
  rtc (ctl_turn glibc_env) (w_ctl w_stopcont) (w_ctl w1).
Proof.
  intros c0 w1.
  assert (H : rtc (wstep glibc_env Counter.pstep shell_layout) w_stopcont w1) by (apply rtc_once; constructor).
  split; [exact H|exact (controller_runs_alone glibc_env Counter.pstep shell_layout _ _ H)].
Defined.

End System.
